(** * taubot: the command-interpretation layer ([commands.py])

    A shallow embedding of the command parsers, the authorization gate, the
    proxy (signature delegation) protocol and the dispatcher, followed by the
    properties of the specification that were checked against it.

    Conventions of the embedding.
    - A Python [str] is a Rocq [string]; its characters are read as the code
      points 0..255.  A Python [bytes] value is a [string] as well.
    - A parser's [None] is [None]; an [except ValueError]/[except KeyError]
      around a built-in is the [None] branch of the built-in's model.
    - Handlers run in a small state-and-exception monad over the accounting
      server's state; every call made on the server, on an account object or
      on a signature verifier is appended to a log. *)

From Stdlib Require Import String Ascii List ZArith NArith Lia Bool Sorted.
From Stdlib Require Import DecimalString DecimalN DecimalPos DecimalZ DecimalFacts.
Import ListNotations.
Open Scope string_scope.

(** ** Python string built-ins *)

(** [str.isspace] of one character, on the code points 0..255: the ASCII
    controls TAB..CR, the separators FS..US, the space, NEL and NBSP. *)
Definition is_space (c : ascii) : bool :=
  let n := N_of_ascii c in
  (((9 <=? n) && (n <=? 13)) || ((28 <=? n) && (n <=? 32)) ||
   (n =? 133) || (n =? 160))%N.

Definition is_digit (c : ascii) : bool :=
  let n := N_of_ascii c in ((48 <=? n) && (n <=? 57))%N.

Definition starts_word (s : string) : bool :=
  match s with
  | String c _ => negb (is_space c)
  | EmptyString => false
  end.

(** [s.split()]: the maximal runs of non-whitespace characters, in order. *)
Fixpoint split (s : string) : list string :=
  match s with
  | EmptyString => []
  | String c r =>
      if is_space c then split r
      else if starts_word r then
             match split r with
             | w :: ws => String c w :: ws
             | [] => [String c EmptyString]
             end
           else String c EmptyString :: split r
  end.

(** [s.split(sep, 1)] for a one-character separator: one or two pieces. *)
Fixpoint split_once (sep : ascii) (s : string) : list string :=
  match s with
  | EmptyString => [EmptyString]
  | String c r =>
      if Ascii.eqb c sep then [EmptyString; r]
      else match split_once sep r with
           | h :: t => String c h :: t
           | [] => [String c EmptyString]
           end
  end.

(** [s.split(sep)] for a one-character separator: every piece. *)
Fixpoint split_all (sep : ascii) (s : string) : list string :=
  match s with
  | EmptyString => [EmptyString]
  | String c r =>
      if Ascii.eqb c sep then EmptyString :: split_all sep r
      else match split_all sep r with
           | h :: t => String c h :: t
           | [] => [String c EmptyString]
           end
  end.

Fixpoint lstrip_chars (p : ascii -> bool) (s : string) : string :=
  match s with
  | String c r => if p c then lstrip_chars p r else s
  | EmptyString => EmptyString
  end.

Fixpoint rstrip_chars (p : ascii -> bool) (s : string) : string :=
  match s with
  | String c r =>
      match rstrip_chars p r with
      | EmptyString => if p c then EmptyString else String c EmptyString
      | r' => String c r'
      end
  | EmptyString => EmptyString
  end.

Definition strip_chars (p : ascii -> bool) (s : string) : string :=
  rstrip_chars p (lstrip_chars p s).

(** [s.strip()] *)
Definition strip (s : string) : string := strip_chars is_space s.

Definition is_newline_or_return (c : ascii) : bool :=
  Ascii.eqb c "010" || Ascii.eqb c "013".

(** [s.isspace()]: non-empty and made of whitespace only. *)
Fixpoint all_space (s : string) : bool :=
  match s with
  | String c r => is_space c && all_space r
  | EmptyString => true
  end.

Definition isspace (s : string) : bool :=
  match s with
  | EmptyString => false
  | _ => all_space s
  end.

(** [sep.join(l)] *)
Fixpoint join (sep : string) (l : list string) : string :=
  match l with
  | [] => EmptyString
  | [x] => x
  | x :: rest => x ++ sep ++ join sep rest
  end.

(** [s.upper()].  Only the letters a..z are moved; the other characters of
    the range 0..255 either stay or leave the range, and in both cases the
    result is no ASCII capital, which is all that a lookup among the
    all-capital member names of [Authorization] can observe. *)
Definition upper_char (c : ascii) : ascii :=
  let n := N_of_ascii c in
  if ((97 <=? n) && (n <=? 122))%N then ascii_of_N (n - 32) else c.

Fixpoint upper (s : string) : string :=
  match s with
  | String c r => String (upper_char c) (upper r)
  | EmptyString => EmptyString
  end.

(** A token: what [split] can return as an element. *)
Fixpoint no_space (s : string) : bool :=
  match s with
  | String c r => negb (is_space c) && no_space r
  | EmptyString => true
  end.

Definition is_token (s : string) : bool :=
  match s with
  | EmptyString => false
  | _ => no_space s
  end.

(** ** [int(text)]

    Base-10 conversion as the built-in does it on a [str]: surrounding
    whitespace is dropped, one sign is allowed, the digits may be grouped
    by single underscores, and anything else is a [ValueError] ([None]).
    The value has no bound: the cap that recent interpreters put on the
    number of digits of a numeral is a setting of the interpreter and is
    left out. *)

Fixpoint grouped_digits (s : string) : bool :=
  match s with
  | String c r =>
      is_digit c &&
      match r with
      | EmptyString => true
      | String "_" r' => grouped_digits r'
      | _ => grouped_digits r
      end
  | EmptyString => false
  end.

Fixpoint drop_underscores (s : string) : string :=
  match s with
  | String c r =>
      if Ascii.eqb c "_" then drop_underscores r else String c (drop_underscores r)
  | EmptyString => EmptyString
  end.

Definition int_unsigned (s : string) : option Z :=
  if grouped_digits s then
    match NilEmpty.uint_of_string (drop_underscores s) with
    | Some u => Some (Z.of_N (N.of_uint u))
    | None => None
    end
  else None.

Definition int (text : string) : option Z :=
  match strip text with
  | String "-" r => option_map Z.opp (int_unsigned r)
  | String "+" r => int_unsigned r
  | s => int_unsigned s
  end.

(** [str(z)] for an integer: the canonical decimal numeral. *)
Definition str_of_int (z : Z) : string := NilZero.string_of_int (Z.to_int z).

(** ** Authorization levels *)

(** Modelled from the spec: the enumeration [accounting.Authorization] is
    imported by [commands.py] and not defined in it.  The specification
    gives three levels ordered CITIZEN < ADMIN < DEVELOPER, compared through
    their numeric [value]; the member names are the ones the usage text of
    [authorize] lists. *)
Inductive Authorization : Type := CITIZEN | ADMIN | DEVELOPER.

Definition value (a : Authorization) : Z :=
  match a with
  | CITIZEN => 0
  | ADMIN => 1
  | DEVELOPER => 2
  end.

Definition name (a : Authorization) : string :=
  match a with
  | CITIZEN => "CITIZEN"
  | ADMIN => "ADMIN"
  | DEVELOPER => "DEVELOPER"
  end.

Definition lower_name (a : Authorization) : string :=
  match a with
  | CITIZEN => "citizen"
  | ADMIN => "admin"
  | DEVELOPER => "developer"
  end.

(** [Authorization[key]]; [None] stands for the [KeyError]. *)
Definition Authorization_getitem (key : string) : option Authorization :=
  if String.eqb key "CITIZEN" then Some CITIZEN
  else if String.eqb key "ADMIN" then Some ADMIN
  else if String.eqb key "DEVELOPER" then Some DEVELOPER
  else None.

(** ** Command parsers *)

Definition parse_transfer_command (message : string) : option (Z * string) :=
  let body := split message in
  if negb (Nat.eqb (List.length body) 3) then None
  else match body with
       | [_; amount_text; destination] =>
           match int amount_text with
           | Some amount => Some (amount, destination)
           | None => None
           end
       | _ => None
       end.

Definition parse_admin_transfer_command (message : string)
  : option (string * Z * string) :=
  let body := split message in
  if negb (Nat.eqb (List.length body) 4) then None
  else match body with
       | [_; amount_text; sender; destination] =>
           match int amount_text with
           | Some amount => Some (sender, amount, destination)
           | None => None
           end
       | _ => None
       end.

Definition parse_authorization (message : string)
  : option (string * Authorization) :=
  let body := split message in
  if negb (Nat.eqb (List.length body) 3) then None
  else match body with
       | [_; beneficiary; auth_level] =>
           let auth_level := upper auth_level in
           match Authorization_getitem auth_level with
           | Some lvl => Some (beneficiary, lvl)
           | None => None
           end
       | _ => None
       end.

Definition parse_print_money (message : string) : option (Z * string) :=
  let body := split message in
  if negb (Nat.eqb (List.length body) 3) then None
  else match body with
       | [_; amount_text; beneficiary] =>
           match int amount_text with
           | Some amount => Some (amount, beneficiary)
           | None => None
           end
       | _ => None
       end.

Definition parse_admin_create_recurring_transfer (message : string)
  : option (Z * string * string * Z) :=
  let body := split message in
  if negb (Nat.eqb (List.length body) 5) then None
  else match body with
       | [_; amount_text; sender; destination; tick_count_text] =>
           match int amount_text with
           | Some amount =>
               match int tick_count_text with
               | Some tick_count => Some (amount, sender, destination, tick_count)
               | None => None
               end
           | None => None
           end
       | _ => None
       end.

(** ** The outside world

    [commands.py] talks to three collaborators it does not define: the
    accounting server (with the account objects it hands out), the
    [base64] module and the [Crypto] package.  They are gathered in one
    record.  Queries read the server's state, commands return the new
    state.  A hash object is kept symbolic: [SHA3_512 t] is
    [SHA3_512.new(t.encode('utf-8'))].  [DSS] signing draws a fresh nonce,
    which is an explicit argument here; [dss_verify] is [false] where
    [verifier.verify] raises [ValueError]. *)

Definition bytes : Type := string.

Inductive Hash : Type := SHA3_512 (text : string).

Record World : Type := {
  Account : Type;
  PublicKey : Type;
  PrivateKey : Type;
  Nonce : Type;
  State : Type;
  (* server and account queries *)
  has_account : State -> string -> bool;
  get_account : State -> string -> Account;
  get_authorization : State -> Account -> Authorization;
  get_balance : State -> Account -> string;
  list_public_keys : State -> Account -> list PublicKey;
  can_transfer : State -> Account -> Account -> Z -> bool;
  list_accounts : State -> list Account;
  get_account_id : State -> Account -> string;
  (* server commands *)
  open_account : State -> string -> State;
  add_public_key : State -> Account -> PublicKey -> State;
  authorize : State -> Account -> Account -> Authorization -> State;
  transfer : State -> Account -> Account -> Account -> Z -> option string * State;
  print_money : State -> Account -> Account -> Z -> State;
  create_recurring_transfer :
    State -> Account -> Account -> Account -> Z -> Z -> string * State;
  (* base64 and Crypto; [inl] carries the text of the exception *)
  b64decode : string -> string + bytes;
  b64encode : bytes -> string;
  import_key : string -> string + PublicKey;
  dss_verify : PublicKey -> Hash -> bytes -> bool;
  dss_sign : PrivateKey -> Nonce -> Hash -> bytes;
  public_key : PrivateKey -> PublicKey
}.

(** The calls a handler makes, as they are logged. *)
Inductive call (w : World) : Type :=
| HasAccount (account_name : string)
| GetAccount (account_name : string)
| GetAuthorization (account : Account w)
| GetBalance (account : Account w)
| ListPublicKeys (account : Account w)
| CanTransfer (sender dest : Account w) (amount : Z)
| ListAccounts
| GetAccountId (account : Account w)
| OpenAccount (account_name : string)
| AddPublicKey (account : Account w) (key : PublicKey w)
| Authorize (author beneficiary : Account w) (auth_level : Authorization)
| DoTransfer (author sender dest : Account w) (amount : Z)
| PrintMoney (author beneficiary : Account w) (amount : Z)
| CreateRecurringTransfer (author sender dest : Account w) (total tick_count : Z)
| Verify (key : PublicKey w) (command_hash : Hash) (signature : bytes)
| Print (text : string).

Arguments HasAccount {w}.
Arguments GetAccount {w}.
Arguments GetAuthorization {w}.
Arguments GetBalance {w}.
Arguments ListPublicKeys {w}.
Arguments CanTransfer {w}.
Arguments ListAccounts {w}.
Arguments GetAccountId {w}.
Arguments OpenAccount {w}.
Arguments AddPublicKey {w}.
Arguments Authorize {w}.
Arguments DoTransfer {w}.
Arguments PrintMoney {w}.
Arguments CreateRecurringTransfer {w}.
Arguments Verify {w}.
Arguments Print {w}.

(** ** Exceptions and the handler monad *)

Inductive exn : Type :=
| CommandException (text : string)
| KeyError
| RecursionError.

Inductive result (A : Type) : Type :=
| Ok (a : A)
| Raise (e : exn).

Arguments Ok {A}.
Arguments Raise {A}.

Record Run (w : World) (A : Type) : Type := mkRun {
  outcome : result A;
  final : State w;
  calls : list (call w)
}.

Arguments mkRun {w A}.
Arguments outcome {w A}.
Arguments final {w A}.
Arguments calls {w A}.

Definition M (w : World) (A : Type) : Type := State w -> Run w A.

Definition ret {w A} (a : A) : M w A := fun s => mkRun (Ok a) s [].

Definition raise {w A} (e : exn) : M w A := fun s => mkRun (Raise e) s [].

Definition bind {w A B} (m : M w A) (k : A -> M w B) : M w B :=
  fun s =>
    let r := m s in
    match outcome r with
    | Ok a => let r' := k a (final r) in
              mkRun (outcome r') (final r') (calls r ++ calls r')
    | Raise e => mkRun (Raise e) (final r) (calls r)
    end.

Notation "x <- m ;; k" := (bind m (fun x => k))
  (at level 61, m at next level, right associativity).
Notation "' pat <- m ;; k" := (bind m (fun x => match x with pat => k end))
  (at level 61, pat pattern, m at next level, right associativity).

(** [try: m  except CommandException as e: h(str(e))] *)
Definition try_except {w A} (m : M w A) (h : string -> M w A) : M w A :=
  fun s =>
    let r := m s in
    match outcome r with
    | Raise (CommandException text) =>
        let r' := h text (final r) in
        mkRun (outcome r') (final r') (calls r ++ calls r')
    | _ => r
    end.

Definition lift {w A} (r : result A) : M w A :=
  fun s => mkRun r s [].

Definition query {w A} (c : call w) (f : State w -> A) : M w A :=
  fun s => mkRun (Ok (f s)) s [c].

Definition command {w A} (c : call w) (f : State w -> A * State w) : M w A :=
  fun s => mkRun (Ok (fst (f s))) (snd (f s)) [c].

Fixpoint for_each {w A B} (f : A -> M w B) (l : list A) : M w (list B) :=
  match l with
  | [] => ret []
  | x :: rest => y <- f x ;; ys <- for_each f rest ;; ret (y :: ys)
  end.

Definition is_ok {A} (r : result A) : bool :=
  match r with
  | Ok _ => true
  | Raise _ => false
  end.

Definition nl : string := String "010" EmptyString.

Section Handlers.

Variable w : World.

(** *** Methods of the server and of its account objects *)

Definition server_has_account (n : string) : M w bool :=
  query (HasAccount n) (fun s => has_account w s n).
Definition server_get_account (n : string) : M w (Account w) :=
  query (GetAccount n) (fun s => get_account w s n).
Definition account_get_authorization (a : Account w) : M w Authorization :=
  query (GetAuthorization a) (fun s => get_authorization w s a).
Definition account_get_balance (a : Account w) : M w string :=
  query (GetBalance a) (fun s => get_balance w s a).
Definition account_list_public_keys (a : Account w) : M w (list (PublicKey w)) :=
  query (ListPublicKeys a) (fun s => list_public_keys w s a).
Definition server_can_transfer (sender dest : Account w) (amount : Z) : M w bool :=
  query (CanTransfer sender dest amount) (fun s => can_transfer w s sender dest amount).
Definition server_list_accounts : M w (list (Account w)) :=
  query ListAccounts (fun s => list_accounts w s).
Definition server_get_account_id (a : Account w) : M w string :=
  query (GetAccountId a) (fun s => get_account_id w s a).
Definition server_open_account (n : string) : M w unit :=
  command (OpenAccount n) (fun s => (tt, open_account w s n)).
Definition server_add_public_key (a : Account w) (k : PublicKey w) : M w unit :=
  command (AddPublicKey a k) (fun s => (tt, add_public_key w s a k)).
Definition server_authorize (author beneficiary : Account w) (lvl : Authorization)
  : M w unit :=
  command (Authorize author beneficiary lvl)
          (fun s => (tt, authorize w s author beneficiary lvl)).
Definition server_transfer (author sender dest : Account w) (amount : Z)
  : M w (option string) :=
  command (DoTransfer author sender dest amount)
          (fun s => transfer w s author sender dest amount).
Definition server_print_money (author beneficiary : Account w) (amount : Z)
  : M w unit :=
  command (PrintMoney author beneficiary amount)
          (fun s => (tt, print_money w s author beneficiary amount)).
(** [server.create_recurring_transfer(...)] followed by [.get_id()] on
    what it returns, rendered by [%s]. *)
Definition server_create_recurring_transfer
    (author sender dest : Account w) (total tick_count : Z) : M w string :=
  command (CreateRecurringTransfer author sender dest total tick_count)
          (fun s => create_recurring_transfer w s author sender dest total tick_count).
(** [DSS.new(key, 'fips-186-3').verify(command_hash, signature)] inside
    [try ... except ValueError]. *)
Definition verifier_verify (key : PublicKey w) (h : Hash) (signature : bytes)
  : M w bool :=
  query (Verify key h signature) (fun _ => dss_verify w key h signature).
(** [print(repr(text))]: the log keeps the text that is shown. *)
Definition print (text : string) : M w unit :=
  query (Print text) (fun _ => tt).

(** *** Account checks *)

Definition assert_is_account (account_name : string) : M w (Account w) :=
  b <- server_has_account account_name ;;
  if negb b then
    raise (CommandException
      ("Sorry, I can't process your request because `" ++ account_name ++
       "` does not have an account yet."))
  else server_get_account account_name.

Definition assert_authorized (account_name : string) (auth_level : Authorization)
  : M w (Account w) :=
  account <- assert_is_account account_name ;;
  lvl <- account_get_authorization account ;;
  if (value lvl <? value auth_level)%Z then
    raise (CommandException
      ("Sorry, I can't process your request because `" ++ account_name ++
       "` does not have the required authorization."))
  else ret account.

(** *** Transfers *)

Definition perform_transfer (author_name sender_name destination_name : string)
    (amount : Z) : M w string :=
  author <- assert_is_account author_name ;;
  sender <- assert_is_account sender_name ;;
  dest <- assert_is_account destination_name ;;
  ok <- server_can_transfer sender dest amount ;;
  if negb ok then ret "Sorry, but I can't perform that transfer."
  else
    proof <- server_transfer author sender dest amount ;;
    let proof_string :=
      match proof with
      | Some p => " Proof: " ++ p ++ "."
      | None => ""
      end in
    ret ("Transfer performed successfully." ++ proof_string).

Definition process_transfer (author message : string) : M w string :=
  match parse_transfer_command message with
  | None =>
      ret ("Transfer formatted incorrectly. Expected `transfer AMOUNT BENEFICIARY`, " ++
           "where AMOUNT is a positive integer and BENEFICIARY is a username.")
  | Some (amount, destination_name) =>
      perform_transfer author author destination_name amount
  end.

Definition process_admin_transfer (author message : string) : M w string :=
  _ <- assert_authorized author ADMIN ;;
  match parse_admin_transfer_command message with
  | None =>
      ret ("Admin transfer formatted incorrectly. Expected `admin-transfer AMOUNT SENDER BENEFICIARY`, " ++
           "where AMOUNT is a positive integer and SENDER, BENEFICIARY are account holders.")
  | Some (sender_name, amount, destination_name) =>
      perform_transfer author sender_name destination_name amount
  end.

(** *** Accounts *)

Definition process_open_account (author message : string) : M w string :=
  b <- server_has_account author ;;
  if b then
    ret ("Hi there " ++ author ++
         ". Looks like you already have an account. No need to open another one.")
  else
    _ <- server_open_account author ;;
    ret ("Hi there " ++ author ++
         ". Your account has been opened successfully. Thank you for your business.").

Definition process_admin_open_account (author message : string) : M w string :=
  _ <- assert_authorized author ADMIN ;;
  let body := split message in
  match body with
  | [_; account_name] =>
      b <- server_has_account account_name ;;
      if b then
        raise (CommandException ("Account `" ++ account_name ++ "` already exists."))
      else
        _ <- server_open_account account_name ;;
        ret ("Account `" ++ account_name ++ "` has been opened successfully.")
  | _ =>
      raise (CommandException
        ("Incorrectly formatted command; expected `admin-open ACCOUNT_NAME`, " ++
         "where `ACCOUNT_NAME` is the name of the account to create."))
  end.

Definition process_balance (author message : string) : M w string :=
  b <- server_has_account author ;;
  if negb b then
    ret ("Hi there " ++ author ++
         ". I can't tell you what the balance on your account is because you don't have an account yet. " ++
         "You can open one with the `open` command.")
  else
    account <- server_get_account author ;;
    balance <- account_get_balance account ;;
    let main_response := "The balance on your account is " ++ balance ++ "." in
    lvl <- account_get_authorization account ;;
    ret ("Hi there " ++ lower_name lvl ++ " " ++ author ++ ". " ++ main_response ++
         " Have a great day.").

Definition process_add_public_key (author message : string) : M w string :=
  account <- assert_is_account author ;;
  let pem :=
    join nl (filter (fun line => negb (String.eqb line "") && negb (isspace line))
                    (tl (split_all "010" message))) in
  _ <- print pem ;;
  match import_key w pem with
  | inl e =>
      raise (CommandException
        ("Incorrectly formatted key. Inner error message: " ++ e ++ "."))
  | inr key =>
      _ <- server_add_public_key account key ;;
      ret "Public key added successfully."
  end.

Definition process_authorization (author message : string) : M w string :=
  author_account <- assert_authorized author ADMIN ;;
  match parse_authorization message with
  | None =>
      raise (CommandException
        "Authorization formatted incorrectly. The right format is `authorize BENEFICIARY citizen|admin|developer`.")
  | Some (beneficiary, auth_level) =>
      beneficiary_account <- assert_is_account beneficiary ;;
      _ <- server_authorize author_account beneficiary_account auth_level ;;
      ret (beneficiary ++ " now has authorization level " ++ name auth_level ++ ".")
  end.

Definition process_list_accounts (author message : string) : M w string :=
  accounts <- server_list_accounts ;;
  rows <- for_each (fun account =>
            id <- server_get_account_id account ;;
            balance <- account_get_balance account ;;
            ret ("| " ++ id ++ " | " ++ balance ++ " |")) accounts ;;
  ret (join nl (["| Account | Balance |"; "| --- | --- |"] ++ rows)).

Definition process_print_money (author message : string) : M w string :=
  author_account <- assert_authorized author ADMIN ;;
  match parse_print_money message with
  | None =>
      raise (CommandException
        "Command formatted incorrectly. Expected format `print-money AMOUNT BENEFICIARY`.")
  | Some (amount, beneficiary) =>
      beneficiary_account <- assert_is_account beneficiary ;;
      _ <- server_print_money author_account beneficiary_account amount ;;
      ret "Money printed successfully."
  end.

Definition process_admin_create_recurring_transfer (author message : string)
  : M w string :=
  _ <- assert_authorized author ADMIN ;;
  match parse_admin_create_recurring_transfer message with
  | None =>
      ret "Request formatted incorrectly. Expected `admin-create-recurring-transfer AMOUNT_PER_TICK SENDER BENEFICIARY TICK_COUNT`."
  | Some (amount, sender_name, destination_name, tick_count) =>
      author_account <- assert_is_account author ;;
      sender_account <- assert_is_account sender_name ;;
      dest_account <- assert_is_account destination_name ;;
      id <- server_create_recurring_transfer author_account sender_account
              dest_account (amount * tick_count)%Z tick_count ;;
      ret ("Recurring transfer set up with ID `" ++ id ++ "`.")
  end.

End Handlers.

(** ** The command table *)

(** The handler functions stored in [COMMANDS], by name. *)
Inductive handler : Type :=
| h_process_help
| h_process_transfer
| h_process_open_account
| h_process_balance
| h_process_add_public_key
| h_process_proxy_command
| h_process_authorization
| h_process_admin_transfer
| h_process_list_accounts
| h_process_print_money
| h_process_admin_create_recurring_transfer
| h_process_admin_open_account.

(** One value of [COMMANDS]: a tuple of three or of four components;
    [min_level = None] is the tuple of length three. *)
Record command_entry : Type := mkEntry {
  usage : string;
  description : string;
  handler_of : handler;
  min_level : option Authorization
}.

Definition COMMANDS : list (string * command_entry) :=
  [ ("help", mkEntry "help" "prints a help message." h_process_help None);
    ("transfer",
     mkEntry "transfer AMOUNT BENEFICIARY"
             "transfers AMOUNT to user BENEFICIARY's account."
             h_process_transfer None);
    ("open", mkEntry "open" "opens a new account." h_process_open_account None);
    ("balance",
     mkEntry "balance" "prints the balance on your account." h_process_balance None);
    ("add-public-key",
     mkEntry "add-public-key"
             ("associates an ECC public key with your account. " ++
              "The public key should be encoded as the contents of a PEM file that is placed on a line after the command itself.")
             h_process_add_public_key None);
    ("proxy",
     mkEntry "proxy dsa PROXIED_ACCOUNT SIGNATURE"
             ("makes PROXIED_ACCOUNT describes the action described in the remainder of the message (starting on the next line). " ++
              "SIGNATURE must be an ECDSA-signed SHA3-512 hash of the remainder of the message, where the key that signs the " ++
              "message must have its public key associated with the proxied account. This command allows a user or application to " ++
              "safely perform actions on an account holder's behalf.")
             h_process_proxy_command None);
    ("authorize",
     mkEntry "authorize ACCOUNT citizen|admin|developer"
             "sets an account's authorization."
             h_process_authorization (Some ADMIN));
    ("admin-transfer",
     mkEntry "admin-transfer AMOUNT SENDER BENEFICIARY"
             "transfers AMOUNT from SENDER to BENEFICIARY."
             h_process_admin_transfer (Some ADMIN));
    ("list",
     mkEntry "list" "lists all accounts and the balance on the accounts."
             h_process_list_accounts (Some ADMIN));
    ("print-money",
     mkEntry "print-money AMOUNT BENEFICIARY"
             "generates AMOUNT money and deposits it in BENEFICIARY's account."
             h_process_print_money (Some ADMIN));
    ("admin-create-recurring-transfer",
     mkEntry "admin-create-recurring-transfer AMOUNT_PER_TICK SENDER BENEFICIARY TICK_COUNT"
             "creates a transfer that will transfer AMOUNT_PER_TICK from SENDER to BENEFICIARY every tick, for TICK_COUNT ticks."
             h_process_admin_create_recurring_transfer (Some ADMIN));
    ("admin-open",
     mkEntry "admin-open ACCOUNT_NAME"
             ("opens a new account with a particular name. " ++
              "If a user has ACCOUNT_NAME, then the newly created account will become that user's account.")
             h_process_admin_open_account (Some ADMIN)) ].

(** [d[key]] and [key in d] on a dictionary kept as its items. *)
Fixpoint getitem {V} (d : list (string * V)) (key : string) : option V :=
  match d with
  | [] => None
  | (k, v) :: rest => if String.eqb k key then Some v else getitem rest key
  end.

Definition keys {V} (d : list (string * V)) : list string := map fst d.

(** [sorted(l)] on strings: code-point lexicographic order. *)
Fixpoint insert_sorted (x : string) (l : list string) : list string :=
  match l with
  | [] => [x]
  | y :: rest => if String.leb x y then x :: l else y :: insert_sorted x rest
  end.

Definition sorted (l : list string) : list string :=
  fold_right insert_sorted [] l.

Definition format_entry (e : command_entry) : string :=
  "`" ++ usage e ++ "` &ndash; " ++ description e.

(** ** The proxy envelope *)

Section Dispatcher.

Variable w : World.

Definition parse_impl (message : string)
  : result (option (string * bytes * string)) :=
  match split_once "010" message with
  | [proxy_line; command] =>
      let command := strip_chars is_newline_or_return command in
      match split proxy_line with
      | [_; protocol; account_name; enc_signature] =>
          if negb (String.eqb protocol "dsa") then Ok None
          else match b64decode w enc_signature with
               | inl e => Raise (CommandException ("Invalid signature. " ++ e))
               | inr signature => Ok (Some (account_name, signature, command))
               end
      | _ => Ok None
      end
  | _ => Ok None
  end.

Definition parse_proxy_command (message : string)
  : result (string * bytes * string) :=
  match parse_impl message with
  | Raise e => Raise e
  | Ok None =>
      Raise (CommandException
        "Invalid formatting; expected `proxy dsa PROXIED_ACCOUNT SIGNATURE` followed by another command on the next line.")
  | Ok (Some r) => Ok r
  end.

Definition compose_proxy_command (proxied_account_name : string)
    (key : PrivateKey w) (nonce : Nonce w) (command : string) : string :=
  let command := strip command in
  let command_hash := SHA3_512 command in
  let signature := b64encode w (dss_sign w key nonce command_hash) in
  "proxy dsa " ++ proxied_account_name ++ " " ++ signature ++ nl ++ command.

(** The [for key in account.list_public_keys()] loop with its [break]. *)
Fixpoint verify_any (command_hash : Hash) (signature : bytes)
    (key_list : list (PublicKey w)) : M w bool :=
  match key_list with
  | [] => ret false
  | key :: rest =>
      verified <- verifier_verify w key command_hash signature ;;
      if verified then ret true else verify_any command_hash signature rest
  end.

(** [process_proxy_command], with the [process_command] it re-enters as
    an argument. *)
Definition process_proxy_command_with (process_command : string -> string -> M w string)
    (author message : string) : M w string :=
  '(account_name, signature, command) <- lift (parse_proxy_command message) ;;
  account <- assert_is_account w account_name ;;
  let command_hash := SHA3_512 command in
  key_list <- account_list_public_keys w account ;;
  any_verified <- verify_any command_hash signature key_list ;;
  if any_verified then process_command account_name command
  else raise (CommandException
         "Cannot execute command by proxy because the signature is invalid.").

(** ** Listing the commands *)

Definition get_authorization_or_citizen (author : string) : M w Authorization :=
  b <- server_has_account w author ;;
  if b then
    account <- server_get_account w author ;;
    account_get_authorization w account
  else ret CITIZEN.

Fixpoint list_commands_from (author : string) (sorted_keys : list string)
  : M w (list string) :=
  match sorted_keys with
  | [] => ret []
  | key :: rest =>
      match getitem COMMANDS key with
      | None => raise KeyError
      | Some cmd =>
          keep <- match min_level cmd with
                  | None => ret true
                  | Some lvl =>
                      a <- get_authorization_or_citizen author ;;
                      ret (value a >=? value lvl)%Z
                  end ;;
          items <- list_commands_from author rest ;;
          ret (if keep then format_entry cmd :: items else items)
      end
  end.

Definition list_commands (author : string) : M w (list string) :=
  list_commands_from author (sorted (keys COMMANDS)).

Definition list_commands_as_markdown (author : string) : M w string :=
  items <- list_commands author ;;
  ret (join nl (map (fun item => "  * " ++ item) items)).

Definition process_help (author message : string) : M w string :=
  listing <- list_commands_as_markdown author ;;
  ret (nl ++ "Hi " ++ author ++ "! Here's a list of the commands I understand:" ++
       nl ++ nl ++ listing).

(** ** The dispatcher *)

Definition call_handler (process_command : string -> string -> M w string)
    (h : handler) : string -> string -> M w string :=
  match h with
  | h_process_help => process_help
  | h_process_transfer => process_transfer w
  | h_process_open_account => process_open_account w
  | h_process_balance => process_balance w
  | h_process_add_public_key => process_add_public_key w
  | h_process_proxy_command => process_proxy_command_with process_command
  | h_process_authorization => process_authorization w
  | h_process_admin_transfer => process_admin_transfer w
  | h_process_list_accounts => process_list_accounts w
  | h_process_print_money => process_print_money w
  | h_process_admin_create_recurring_transfer =>
      process_admin_create_recurring_transfer w
  | h_process_admin_open_account => process_admin_open_account w
  end.

(** The body of [process_command]; [self] is [process_command] itself, as
    the proxy handler reaches it through [COMMANDS]. *)
Definition process_command_body (self : string -> string -> M w string)
    (author message : string) : M w string :=
  let split_msg := split message in
  match split_msg with
  | [] =>
      listing <- list_commands_as_markdown author ;;
      ret ("Hi " ++ author ++
           "! You sent me an empty message. Here's a list of commands I do understand:" ++
           nl ++ nl ++ listing)
  | first :: _ =>
      match getitem COMMANDS first with
      | Some cmd =>
          try_except
            (_ <- match min_level cmd with
                  | Some lvl =>
                      if (value lvl >? value CITIZEN)%Z
                      then _ <- assert_authorized w author lvl ;; ret tt
                      else ret tt
                  | None => ret tt
                  end ;;
             call_handler self (handler_of cmd) author message)
            (fun text => ret text)
      | None =>
          listing <- list_commands_as_markdown author ;;
          ret ("Hi " ++ author ++
               "! I didn't quite understand command your command `" ++ first ++
               "`. Here's a list of commands I do understand:" ++ nl ++ nl ++ listing)
      end
  end.

(** The recursion of [process_command] through the proxy handler: every
    re-entry is on a strictly shorter message, so as many levels as the
    message has characters, plus one, are always enough.  The interpreter's
    own limit on the call depth is not modelled. *)
Fixpoint process_command_depth (depth : nat) : string -> string -> M w string :=
  match depth with
  | O => fun _ _ => raise RecursionError
  | S d => process_command_body (process_command_depth d)
  end.

Definition process_command (author message : string) : M w string :=
  process_command_depth (S (String.length message)) author message.

Definition process_proxy_command (author message : string) : M w string :=
  process_proxy_command_with process_command author message.

End Dispatcher.


(** ** A reference world

    A small in-memory ledger, RFC 4648 base64 and a transparent stand-in
    for the signature scheme (a signature names its key and its text), used
    to run the handlers on concrete messages. *)

Definition b64_alphabet : string :=
  "ABCDEFGHIJKLMNOPQRSTUVWXYZabcdefghijklmnopqrstuvwxyz0123456789+/".

Definition b64_char (n : N) : ascii :=
  match String.get (N.to_nat n) b64_alphabet with
  | Some c => c
  | None => "="%char
  end.

Fixpoint b64_find (c : ascii) (alphabet : string) (i : N) : option N :=
  match alphabet with
  | String a r => if Ascii.eqb a c then Some i else b64_find c r (i + 1)%N
  | EmptyString => None
  end.

Definition b64_index (c : ascii) : option N := b64_find c b64_alphabet 0%N.

Fixpoint ref_b64encode (data : bytes) : string :=
  match data with
  | String a (String b (String c r)) =>
      let n := (N_of_ascii a * 65536 + N_of_ascii b * 256 + N_of_ascii c)%N in
      String (b64_char (n / 262144)) (String (b64_char ((n / 4096) mod 64))
        (String (b64_char ((n / 64) mod 64)) (String (b64_char (n mod 64))
           (ref_b64encode r))))
  | String a (String b EmptyString) =>
      let n := (N_of_ascii a * 65536 + N_of_ascii b * 256)%N in
      String (b64_char (n / 262144)) (String (b64_char ((n / 4096) mod 64))
        (String (b64_char ((n / 64) mod 64)) "="))
  | String a EmptyString =>
      let n := (N_of_ascii a * 65536)%N in
      String (b64_char (n / 262144)) (String (b64_char ((n / 4096) mod 64)) "==")
  | EmptyString => EmptyString
  end.

Fixpoint ref_b64decode_groups (text : string) : option bytes :=
  match text with
  | EmptyString => Some EmptyString
  | String a (String b (String c (String d r))) =>
      match b64_index a, b64_index b with
      | Some x, Some y =>
          let b1 := ascii_of_N (x * 4 + y / 16) in
          match b64_index c, b64_index d, r with
          | Some z, Some u, _ =>
              option_map
                (fun rest =>
                   String b1 (String (ascii_of_N ((y mod 16) * 16 + z / 4))
                     (String (ascii_of_N ((z mod 4) * 64 + u)) rest)))
                (ref_b64decode_groups r)
          | Some z, None, EmptyString =>
              if Ascii.eqb d "=" then
                Some (String b1 (String (ascii_of_N ((y mod 16) * 16 + z / 4)) ""))
              else None
          | None, None, EmptyString =>
              if Ascii.eqb c "=" && Ascii.eqb d "=" then Some (String b1 "")
              else None
          | _, _, _ => None
          end
      | _, _ => None
      end
  | _ => None
  end.

Definition ref_b64decode (text : string) : string + bytes :=
  match ref_b64decode_groups text with
  | Some data => inr data
  | None => inl "Incorrect padding"
  end.

Record ref_account : Type := mkAccount {
  acct_name : string;
  acct_auth : Authorization;
  acct_keys : list nat;
  acct_balance : Z
}.

Definition ref_lookup (s : list ref_account) (n : string) : option ref_account :=
  find (fun a => String.eqb (acct_name a) n) s.

Definition ref_update (s : list ref_account) (n : string)
    (f : ref_account -> ref_account) : list ref_account :=
  map (fun a => if String.eqb (acct_name a) n then f a else a) s.

Definition ref_balance (s : list ref_account) (n : string) : Z :=
  match ref_lookup s n with
  | Some a => acct_balance a
  | None => 0
  end.

Definition ref_add_balance (d : Z) (a : ref_account) : ref_account :=
  mkAccount (acct_name a) (acct_auth a) (acct_keys a) (acct_balance a + d).

Definition ref_move (s : list ref_account) (sender dest : string) (amount : Z)
  : list ref_account :=
  ref_update (ref_update s sender (ref_add_balance (- amount))) dest
             (ref_add_balance amount).

Definition ref_sign (key : nat) (h : Hash) : bytes :=
  match h with
  | SHA3_512 text => String (ascii_of_nat key) text
  end.

Definition ref_world : World := {|
  Account := string;
  PublicKey := nat;
  PrivateKey := nat;
  Nonce := unit;
  State := list ref_account;
  has_account := fun s n =>
    match ref_lookup s n with Some _ => true | None => false end;
  get_account := fun _ n => n;
  get_authorization := fun s n =>
    match ref_lookup s n with Some a => acct_auth a | None => CITIZEN end;
  get_balance := fun s n => str_of_int (ref_balance s n);
  list_public_keys := fun s n =>
    match ref_lookup s n with Some a => acct_keys a | None => [] end;
  can_transfer := fun s sender dest amount =>
    ((0 <? amount) && (amount <=? ref_balance s sender))%Z;
  list_accounts := fun s => map acct_name s;
  get_account_id := fun _ n => n;
  open_account := fun s n => (s ++ [mkAccount n CITIZEN [] 0])%list;
  add_public_key := fun s n k =>
    ref_update s n (fun a =>
      mkAccount (acct_name a) (acct_auth a) (acct_keys a ++ [k])%list (acct_balance a));
  authorize := fun s _ n lvl =>
    ref_update s n (fun a =>
      mkAccount (acct_name a) lvl (acct_keys a) (acct_balance a));
  transfer := fun s _ sender dest amount => (None, ref_move s sender dest amount);
  print_money := fun s _ n amount => ref_update s n (ref_add_balance amount);
  create_recurring_transfer := fun s _ _ _ _ _ => ("0", s);
  b64decode := ref_b64decode;
  b64encode := ref_b64encode;
  import_key := fun pem =>
    match int pem with
    | Some z => inr (Z.to_nat z)
    | None => inl "Unsupported key format"
    end;
  dss_verify := fun key h signature => String.eqb signature (ref_sign key h);
  dss_sign := fun key _ h => ref_sign key h;
  public_key := fun key => key
|}.

(** Two ledgers: an empty one, and one where alice is an administrator
    with key 7 and bob is a citizen with keys 3 and 5. *)
Definition ref_empty : State ref_world := [].

Definition ref_ledger : State ref_world :=
  [ mkAccount "alice" ADMIN [7%nat] 100;
    mkAccount "bob" CITIZEN [3%nat; 5%nat] 20 ].

(** A ledger whose only account has a name of two words. *)
Definition ref_spaced : State ref_world := [ mkAccount "a b" CITIZEN [7%nat] 0 ].

(** ** What the specification says, in its own words *)

(** The level the listing is made for: the caller's, or the lowest. *)
Definition caller_level (w : World) (s : State w) (author : string) : Authorization :=
  if has_account w s author
  then get_authorization w s (get_account w s author)
  else CITIZEN.

(** "filtered to specs whose minLevel <= the caller's level; entries with
    no explicit minimum are visible to everyone" *)
Definition visible_to (level : Authorization) (e : command_entry) : bool :=
  match min_level e with
  | None => true
  | Some m => (value m <=? value level)%Z
  end.

(** "sorted by name": the registry's items in the order of their names. *)
Definition entries_by_name : list (string * command_entry) :=
  flat_map (fun k => match getitem COMMANDS k with
                     | Some e => [(k, e)]
                     | None => []
                     end)
           (sorted (keys COMMANDS)).

Definition listVisibleTo (level : Authorization) : list (string * command_entry) :=
  filter (fun ke => visible_to level (snd ke)) entries_by_name.

(** The keys a verification loop gets to: all of them up to and including
    the first one that verifies. *)
Fixpoint keys_tried {K} (verifies : K -> bool) (key_list : list K) : list K :=
  match key_list with
  | [] => []
  | k :: rest => if verifies k then [k] else k :: keys_tried verifies rest
  end.

Definition invalid_formatting_text : string :=
  "Invalid formatting; expected `proxy dsa PROXIED_ACCOUNT SIGNATURE` followed by another command on the next line.".

Definition invalid_signature_text : string :=
  "Cannot execute command by proxy because the signature is invalid.".

Definition no_account_text (account_name : string) : string :=
  "Sorry, I can't process your request because `" ++ account_name ++
  "` does not have an account yet.".

Definition not_authorized_text (account_name : string) : string :=
  "Sorry, I can't process your request because `" ++ account_name ++
  "` does not have the required authorization.".

(** Prefixing a run's log with the calls made before it. *)
Definition after {w A} (before : list (call w)) (r : Run w A) : Run w A :=
  mkRun (outcome r) (final r) (before ++ calls r).

(** The calls [get_authorization_or_citizen] makes. *)
Definition level_calls (w : World) (s : State w) (author : string) : list (call w) :=
  if has_account w s author
  then [HasAccount author; GetAccount author;
        GetAuthorization (get_account w s author)]
  else [HasAccount author].

(** The calls [list_commands] makes: one level query for each listed name
    whose entry carries a minimum level. *)
Definition listing_calls (w : World) (s : State w) (author : string)
    (names : list string) : list (call w) :=
  flat_map (fun k => match getitem COMMANDS k with
                     | Some e => match min_level e with
                                 | Some _ => level_calls w s author
                                 | None => []
                                 end
                     | None => []
                     end) names.

Definition entries_of (names : list string) : list (string * command_entry) :=
  flat_map (fun k => match getitem COMMANDS k with
                     | Some e => [(k, e)]
                     | None => []
                     end) names.

(** A string without a given character. *)
Fixpoint lacks (sep : ascii) (s : string) : bool :=
  match s with
  | String c r => negb (Ascii.eqb c sep) && lacks sep r
  | EmptyString => true
  end.

(** The calls [process_proxy_command] makes before it re-enters the
    dispatcher or gives up. *)
Definition proxy_checks (w : World) (s : State w) (account_name : string)
    (command : string) (signature : bytes) : list (call w) :=
  let account := get_account w s account_name in
  [HasAccount account_name; GetAccount account_name; ListPublicKeys account] ++
  map (fun k => Verify k (SHA3_512 command) signature)
      (keys_tried (fun k => dss_verify w k (SHA3_512 command) signature)
                  (list_public_keys w s account)).


(** A run that ends in a reply or in a [CommandException]. *)
Definition no_crash {w A} (r : Run w A) : Prop :=
  match outcome r with
  | Ok _ => True
  | Raise (CommandException _) => True
  | Raise _ => False
  end.

(** ** Shorthands for the statements about the handlers *)

(** The calls [assert_authorized] makes on an existing account. *)
Definition auth_calls (w : World) (s : State w) (author : string) : list (call w) :=
  [HasAccount author; GetAccount author;
   GetAuthorization (get_account w s author)].

(** The author has an account, and its level is at least [lvl]. *)
Definition is_authorized (w : World) (s : State w) (author : string)
    (lvl : Authorization) : bool :=
  has_account w s author &&
  (value lvl <=? value (get_authorization w s (get_account w s author)))%Z.

(** The bulleted listing shown to a caller of a given level. *)
Definition listing_markdown (level : Authorization) : string :=
  join nl (map (fun item => "  * " ++ item)
               (map (fun ke => format_entry (snd ke)) (listVisibleTo level))).

(** The key text [process_add_public_key] takes from a message. *)
Definition pem_of (message : string) : string :=
  join nl (filter (fun line => negb (String.eqb line "") && negb (isspace line))
                  (tl (split_all "010" message))).

(** One row of the table of [process_list_accounts], and the calls that
    fetch it. *)
Definition account_row (w : World) (s : State w) (account : Account w) : string :=
  "| " ++ get_account_id w s account ++ " | " ++ get_balance w s account ++ " |".

Definition account_row_calls (w : World) (account : Account w) : list (call w) :=
  [GetAccountId account; GetBalance account].

(** * Properties *)

(** ** The model at work *)

Example split_on_any_whitespace :
  split ("  transfer 10" ++ String "009" "bob" ++ nl) = ["transfer"; "10"; "bob"].
Proof. reflexivity. Qed.

Example int_accepts_and_rejects :
  map int ["10"; "-7"; "+0"; "1_000"; "007"; " 12 "; "1__0"; "_1"; "1_"; "ten";
           ""; "-"; "- 5"; "0x1f"; "1.5"]
  = [Some 10%Z; Some (-7)%Z; Some 0%Z; Some 1000%Z; Some 7%Z; Some 12%Z; None;
     None; None; None; None; None; None; None; None].
Proof. reflexivity. Qed.

Example str_of_int_is_canonical :
  map str_of_int [0%Z; 12%Z; (-305)%Z] = ["0"; "12"; "-305"].
Proof. reflexivity. Qed.

Example parse_authorization_folds_case :
  parse_authorization "authorize bob aDmin" = Some ("bob", ADMIN).
Proof. reflexivity. Qed.

Example base64_of_the_reference_world :
  ref_b64encode "Man is" = "TWFuIGlz" /\ ref_b64decode "TWE=" = inr "Ma" /\
  ref_b64decode "abc" = inl "Incorrect padding".
Proof. repeat split. Qed.

Example proxied_balance :
  outcome (process_command ref_world "mallory"
             (compose_proxy_command ref_world "bob" 5%nat tt " balance ")
             ref_ledger)
  = Ok "Hi there citizen bob. The balance on your account is 20. Have a great day.".
Proof. reflexivity. Qed.

Example help_for_a_stranger :
  outcome (list_commands ref_world "mallory" ref_ledger)
  = Ok (map (fun ke => format_entry (snd ke))
            (filter (fun ke => match min_level (snd ke) with
                               | None => true
                               | Some _ => false
                               end)
                    entries_by_name)).
Proof. reflexivity. Qed.

(** ** Strings *)

Lemma lstrip_chars_fixed (p : ascii -> bool) (s : string) :
  match s with String c _ => p c = false | EmptyString => True end ->
  lstrip_chars p s = s.
Proof.
  destruct s as [|c r]; simpl; [reflexivity|].
  intros ->. reflexivity.
Qed.

Lemma lstrip_chars_head (p : ascii -> bool) (s : string) :
  match lstrip_chars p s with String c _ => p c = false | EmptyString => True end.
Proof.
  induction s as [|c r IH]; simpl; [exact I|].
  destruct (p c) eqn:E; [exact IH | exact E].
Qed.

Lemma rstrip_chars_head (p : ascii -> bool) (c : ascii) (r : string) :
  p c = false -> rstrip_chars p (String c r) = String c (rstrip_chars p r).
Proof.
  intros H. simpl. destruct (rstrip_chars p r); [rewrite H|]; reflexivity.
Qed.

Lemma rstrip_chars_weaker (p q : ascii -> bool) (s : string) :
  (forall c, p c = true -> q c = true) ->
  rstrip_chars p (rstrip_chars q s) = rstrip_chars q s.
Proof.
  intros Hpq. induction s as [|c r IH]; simpl; [reflexivity|].
  destruct (rstrip_chars q r) as [|d r'] eqn:E.
  - destruct (q c) eqn:Eq; simpl; [reflexivity|].
    destruct (p c) eqn:Ep; [|reflexivity].
    apply Hpq in Ep. congruence.
  - change (rstrip_chars p (String c (String d r')))
      with (match rstrip_chars p (String d r') with
            | EmptyString => if p c then EmptyString else String c EmptyString
            | r'' => String c r''
            end).
    rewrite IH. reflexivity.
Qed.

Lemma strip_chars_weaker (p q : ascii -> bool) (s : string) :
  (forall c, p c = true -> q c = true) ->
  strip_chars p (strip_chars q s) = strip_chars q s.
Proof.
  intros Hpq. unfold strip_chars.
  pose proof (lstrip_chars_head q s) as Hh.
  destruct (lstrip_chars q s) as [|c r]; [reflexivity|].
  rewrite (rstrip_chars_head q c r Hh).
  rewrite lstrip_chars_fixed.
  - rewrite <- (rstrip_chars_head q c r Hh).
    apply rstrip_chars_weaker, Hpq.
  - destruct (p c) eqn:E; [|reflexivity].
    apply Hpq in E. congruence.
Qed.

Lemma newline_or_return_is_space (c : ascii) :
  is_newline_or_return c = true -> is_space c = true.
Proof.
  unfold is_newline_or_return. intros H.
  apply orb_true_iff in H.
  destruct H as [H|H]; apply Ascii.eqb_eq in H; subst; reflexivity.
Qed.

Lemma rstrip_chars_none (s : string) :
  no_space s = true -> rstrip_chars is_space s = s.
Proof.
  induction s as [|c r IH]; simpl; [reflexivity|].
  intros H. apply andb_true_iff in H. destruct H as [Hc Hr].
  rewrite (IH Hr).
  apply negb_true_iff in Hc. rewrite Hc.
  destruct r; reflexivity.
Qed.

Lemma strip_no_space (s : string) : no_space s = true -> strip s = s.
Proof.
  intros H. unfold strip, strip_chars.
  rewrite lstrip_chars_fixed.
  - now apply rstrip_chars_none.
  - destruct s as [|c r]; [exact I|].
    simpl in H. apply andb_true_iff in H. destruct H as [Hc _].
    now apply negb_true_iff in Hc.
Qed.

Lemma length_rstrip_chars (p : ascii -> bool) (s : string) :
  String.length (rstrip_chars p s) <= String.length s.
Proof.
  induction s as [|c r IH]; simpl; [lia|].
  destruct (rstrip_chars p r); [destruct (p c)|]; simpl in *; lia.
Qed.

Lemma length_lstrip_chars (p : ascii -> bool) (s : string) :
  String.length (lstrip_chars p s) <= String.length s.
Proof.
  induction s as [|c r IH]; simpl; [lia|].
  destruct (p c); simpl; lia.
Qed.

Lemma length_strip_chars (p : ascii -> bool) (s : string) :
  String.length (strip_chars p s) <= String.length s.
Proof.
  unfold strip_chars.
  pose proof (length_rstrip_chars p (lstrip_chars p s)).
  pose proof (length_lstrip_chars p s). lia.
Qed.

(** [split] on a token followed by the rest of a line. *)
Lemma split_token_then (t rest : string) :
  is_token t = true -> starts_word rest = false ->
  split (t ++ rest) = t :: split rest.
Proof.
  induction t as [|c r IH]; [discriminate|].
  intros Ht Hrest. simpl in Ht.
  apply andb_true_iff in Ht. destruct Ht as [Hc Hr].
  apply negb_true_iff in Hc.
  change (String c r ++ rest) with (String c (r ++ rest)).
  cbn [split]. rewrite Hc.
  destruct r as [|d r'].
  - simpl. rewrite Hrest. reflexivity.
  - assert (Hd : is_space d = false).
    { simpl in Hr. apply andb_true_iff in Hr. destruct Hr as [Hd _].
      now apply negb_true_iff in Hd. }
    assert (Hw : starts_word (String d r' ++ rest) = true).
    { simpl. now rewrite Hd. }
    rewrite Hw. rewrite (IH Hr Hrest). reflexivity.
Qed.

Lemma split_space (c : ascii) (r : string) :
  is_space c = true -> split (String c r) = split r.
Proof. intros H. simpl. now rewrite H. Qed.

Lemma split_token (t : string) : is_token t = true -> split t = [t].
Proof.
  intros H. pose proof (split_token_then t EmptyString H eq_refl) as E.
  revert E. replace (t ++ "") with t; [auto|].
  clear. induction t; simpl; congruence.
Qed.

Lemma length_split_once (sep : ascii) (s h b : string) :
  split_once sep s = [h; b] -> String.length b < String.length s.
Proof.
  revert h. induction s as [|c r IH]; simpl; intros h; [discriminate|].
  destruct (Ascii.eqb c sep).
  - intros [= _ <-]. lia.
  - destruct (split_once sep r) as [|h' [|b' [|? ?]]]; try discriminate.
    intros [= _ <-]. specialize (IH h' eq_refl). lia.
Qed.

(** ** Integers *)

Lemma no_space_string_of_uint (u : Decimal.uint) :
  no_space (NilEmpty.string_of_uint u) = true.
Proof. induction u; simpl; auto. Qed.

Lemma drop_underscores_string_of_uint (u : Decimal.uint) :
  drop_underscores (NilEmpty.string_of_uint u) = NilEmpty.string_of_uint u.
Proof. induction u; simpl; congruence. Qed.

Lemma grouped_digits_string_of_uint (u : Decimal.uint) :
  u <> Decimal.Nil -> grouped_digits (NilEmpty.string_of_uint u) = true.
Proof.
  induction u as [|u IH|u IH|u IH|u IH|u IH|u IH|u IH|u IH|u IH|u IH];
    intros H; [congruence|..];
    (destruct u; [reflexivity|apply IH; discriminate..]).
Qed.

Lemma int_unsigned_string_of_uint (u : Decimal.uint) :
  u <> Decimal.Nil ->
  int_unsigned (NilEmpty.string_of_uint u) = Some (Z.of_N (N.of_uint u)).
Proof.
  intros H. unfold int_unsigned.
  rewrite (grouped_digits_string_of_uint u H).
  rewrite drop_underscores_string_of_uint, NilEmpty.usu. reflexivity.
Qed.

Lemma int_digits (u : Decimal.uint) :
  u <> Decimal.Nil ->
  int (NilEmpty.string_of_uint u) = Some (Z.of_N (N.of_uint u)).
Proof.
  intros H. unfold int.
  rewrite (strip_no_space _ (no_space_string_of_uint u)).
  rewrite <- (int_unsigned_string_of_uint u H).
  destruct u; try congruence; reflexivity.
Qed.

(** Every integer is the value of its numeral. *)
Lemma int_str_of_int (z : Z) : int (str_of_int z) = Some z.
Proof.
  destruct z as [|p|p]; [reflexivity| |].
  - unfold str_of_int. simpl.
    pose proof (DecimalPos.Unsigned.to_uint_nonnil p) as Hn.
    unfold NilZero.string_of_uint.
    replace (match Pos.to_uint p with Decimal.Nil => "0" | _ => NilEmpty.string_of_uint (Pos.to_uint p) end)
      with (NilEmpty.string_of_uint (Pos.to_uint p))
      by (destruct (Pos.to_uint p); congruence).
    rewrite (int_digits _ Hn). unfold N.of_uint.
    now rewrite DecimalPos.Unsigned.of_to.
  - unfold str_of_int. simpl.
    pose proof (DecimalPos.Unsigned.to_uint_nonnil p) as Hn.
    unfold NilZero.string_of_uint.
    replace (match Pos.to_uint p with Decimal.Nil => "0" | _ => NilEmpty.string_of_uint (Pos.to_uint p) end)
      with (NilEmpty.string_of_uint (Pos.to_uint p))
      by (destruct (Pos.to_uint p); congruence).
    unfold int.
    rewrite strip_no_space
      by (simpl; apply no_space_string_of_uint).
    rewrite (int_unsigned_string_of_uint _ Hn). unfold N.of_uint.
    now rewrite DecimalPos.Unsigned.of_to.
Qed.

(** ** The parsers *)

Lemma length_neq_eqb (A : Type) (l : list A) (n : nat) :
  List.length l <> n -> negb (Nat.eqb (List.length l) n) = true.
Proof. intros H. apply negb_true_iff, Nat.eqb_neq, H. Qed.

(** C6.  A message whose number of whitespace-separated tokens is not the
    one the command requires, or whose amount (or tick count) is no integer,
    or whose role is no member of [Authorization], is answered with [None]
    by the parser of transfer, admin-transfer, authorize, print-money and
    admin-create-recurring-transfer: the parsers are total, and return
    either the whole tuple or [None]. *)
Theorem parsers_reject_malformed (m : string) :
  (List.length (split m) <> 3%nat ->
     parse_transfer_command m = None /\ parse_authorization m = None /\
     parse_print_money m = None) /\
  (List.length (split m) <> 4%nat -> parse_admin_transfer_command m = None) /\
  (List.length (split m) <> 5%nat ->
     parse_admin_create_recurring_transfer m = None) /\
  (forall c a d, split m = [c; a; d] -> int a = None ->
     parse_transfer_command m = None /\ parse_print_money m = None) /\
  (forall c a s d, split m = [c; a; s; d] -> int a = None ->
     parse_admin_transfer_command m = None) /\
  (forall c b r, split m = [c; b; r] -> Authorization_getitem (upper r) = None ->
     parse_authorization m = None) /\
  (forall c a s d t, split m = [c; a; s; d; t] -> int a = None \/ int t = None ->
     parse_admin_create_recurring_transfer m = None).
Proof.
  split; [|split; [|split; [|split; [|split; [|split]]]]].
  - intros H.
    unfold parse_transfer_command, parse_authorization, parse_print_money.
    now rewrite (length_neq_eqb _ _ _ H).
  - intros H. unfold parse_admin_transfer_command.
    now rewrite (length_neq_eqb _ _ _ H).
  - intros H. unfold parse_admin_create_recurring_transfer.
    now rewrite (length_neq_eqb _ _ _ H).
  - intros c a d H Ha. unfold parse_transfer_command, parse_print_money.
    rewrite H. simpl. now rewrite Ha.
  - intros c a s d H Ha. unfold parse_admin_transfer_command.
    rewrite H. simpl. now rewrite Ha.
  - intros c b r H Hr. unfold parse_authorization.
    rewrite H. simpl. now rewrite Hr.
  - intros c a s d t H [Ha|Ht]; unfold parse_admin_create_recurring_transfer;
      rewrite H; simpl.
    + now rewrite Ha.
    + rewrite Ht. now destruct (int a).
Qed.

Lemma parsers_reject_malformed_witness :
  parse_transfer_command "transfer 10" = None /\
  parse_admin_transfer_command "admin-transfer 10 alice bob carol" = None /\
  parse_admin_create_recurring_transfer "admin-create-recurring-transfer 1 a b" = None /\
  parse_print_money "print-money ten bob" = None /\
  parse_admin_transfer_command "admin-transfer 1.5 alice bob" = None /\
  parse_authorization "authorize bob king" = None /\
  parse_admin_create_recurring_transfer "admin-create-recurring-transfer 1 a b x" = None.
Proof.
  split; [|split; [|split; [|split; [|split; [|split]]]]].
  - destruct (parsers_reject_malformed "transfer 10") as [H _].
    apply H. vm_compute. lia.
  - destruct (parsers_reject_malformed "admin-transfer 10 alice bob carol")
      as [_ [H _]].
    apply H. vm_compute. lia.
  - destruct (parsers_reject_malformed "admin-create-recurring-transfer 1 a b")
      as [_ [_ [H _]]].
    apply H. vm_compute. lia.
  - destruct (parsers_reject_malformed "print-money ten bob")
      as [_ [_ [_ [H _]]]].
    apply (H "print-money" "ten" "bob"); reflexivity.
  - destruct (parsers_reject_malformed "admin-transfer 1.5 alice bob")
      as [_ [_ [_ [_ [H _]]]]].
    apply (H "admin-transfer" "1.5" "alice" "bob"); reflexivity.
  - destruct (parsers_reject_malformed "authorize bob king")
      as [_ [_ [_ [_ [_ [H _]]]]]].
    apply (H "authorize" "bob" "king"); reflexivity.
  - destruct (parsers_reject_malformed "admin-create-recurring-transfer 1 a b x")
      as [_ [_ [_ [_ [_ [_ H]]]]]].
    apply (H "admin-create-recurring-transfer" "1" "a" "b" "x");
      [reflexivity | right; reflexivity].
Defined.

(** C7.  The parsers convert the amount with [int] and look at nothing
    else: whenever the amount token is an integer numeral of value [z]
    (and every [z], zero and the negatives included, has one), transfer,
    print-money and admin-transfer return the tuple that holds exactly
    [z]. *)
Theorem amounts_parsed_without_sign_check (z : Z) :
  int (str_of_int z) = Some z /\
  (forall m c a d, int a = Some z -> split m = [c; a; d] ->
     parse_transfer_command m = Some (z, d) /\
     parse_print_money m = Some (z, d)) /\
  (forall m c a s d, int a = Some z -> split m = [c; a; s; d] ->
     parse_admin_transfer_command m = Some (s, z, d)).
Proof.
  split; [apply int_str_of_int|]. split.
  - intros m c a d Ha H.
    unfold parse_transfer_command, parse_print_money.
    rewrite H. simpl. now rewrite Ha.
  - intros m c a s d Ha H. unfold parse_admin_transfer_command.
    rewrite H. simpl. now rewrite Ha.
Qed.

Lemma amounts_parsed_without_sign_check_witness :
  parse_transfer_command "transfer -7 bob" = Some ((-7)%Z, "bob") /\
  parse_print_money "print-money 0 bob" = Some (0%Z, "bob") /\
  parse_admin_transfer_command "admin-transfer 1_000 alice bob"
    = Some ("alice", 1000%Z, "bob").
Proof.
  split; [|split].
  - destruct (amounts_parsed_without_sign_check (-7)) as [_ [H _]].
    apply (H "transfer -7 bob" "transfer" "-7" "bob"); reflexivity.
  - destruct (amounts_parsed_without_sign_check 0) as [_ [H _]].
    apply (H "print-money 0 bob" "print-money" "0" "bob"); reflexivity.
  - destruct (amounts_parsed_without_sign_check 1000) as [_ [_ H]].
    apply (H "admin-transfer 1_000 alice bob" "admin-transfer" "1_000" "alice" "bob");
      reflexivity.
Defined.

(** ** Runs of the handler monad *)

Lemma bind_run (w : World) (A B : Type) (m : M w A) (k : A -> M w B) (s : State w) :
  bind m k s =
  match outcome (m s) with
  | Ok a => after (calls (m s)) (k a (final (m s)))
  | Raise e => mkRun (Raise e) (final (m s)) (calls (m s))
  end.
Proof. reflexivity. Qed.

Lemma bind_ext (w : World) (A B : Type) (m : M w A) (k1 k2 : A -> M w B)
    (s : State w) :
  (forall a s', k1 a s' = k2 a s') -> bind m k1 s = bind m k2 s.
Proof.
  intros H. rewrite !bind_run. destruct (outcome (m s)); [rewrite H|]; reflexivity.
Qed.

Lemma after_nil (w : World) (A : Type) (r : Run w A) : after [] r = r.
Proof. destruct r; reflexivity. Qed.

Lemma after_run (w : World) (A : Type) (l c : list (call w)) (o : result A)
    (s : State w) :
  after l (mkRun o s c) = mkRun o s (l ++ c)%list.
Proof. reflexivity. Qed.

Lemma after_after (w : World) (A : Type) (l1 l2 : list (call w)) (r : Run w A) :
  after l1 (after l2 r) = after (l1 ++ l2)%list r.
Proof. unfold after. cbn [outcome final calls]. now rewrite List.app_assoc. Qed.

Lemma query_run (w : World) (A : Type) (c : call w) (f : State w -> A) (s : State w) :
  query c f s = mkRun (Ok (f s)) s [c].
Proof. reflexivity. Qed.

Lemma command_run (w : World) (A : Type) (c : call w) (f : State w -> A * State w)
    (s : State w) :
  command c f s = mkRun (Ok (fst (f s))) (snd (f s)) [c].
Proof. reflexivity. Qed.

Lemma ret_run (w : World) (A : Type) (a : A) (s : State w) :
  ret a s = mkRun (Ok a) s [].
Proof. reflexivity. Qed.

Lemma raise_run (w : World) (A : Type) (e : exn) (s : State w) :
  raise e s = mkRun (A := A) (Raise e) s [].
Proof. reflexivity. Qed.

(** One step of a run: open the outermost [bind], run a primitive, and
    tidy the projections. *)
Ltac step := cbn [negb outcome final calls fst snd].

Ltac run_step :=
  first [ rewrite bind_run | rewrite query_run | rewrite command_run
        | rewrite ret_run | rewrite raise_run | rewrite after_run
        | rewrite after_after | rewrite after_nil ];
  step.

Ltac unfold_server :=
  unfold server_has_account, server_get_account, account_get_authorization,
    account_get_balance, account_list_public_keys, server_can_transfer,
    server_list_accounts, server_get_account_id, server_open_account,
    server_add_public_key, server_authorize, server_transfer,
    server_print_money, server_create_recurring_transfer, verifier_verify,
    print.

Lemma assert_is_account_run (w : World) (account_name : string) (s : State w) :
  assert_is_account w account_name s =
  if has_account w s account_name
  then mkRun (Ok (get_account w s account_name)) s
             [HasAccount account_name; GetAccount account_name]
  else mkRun (Raise (CommandException (no_account_text account_name))) s
             [HasAccount account_name].
Proof.
  unfold assert_is_account. unfold_server. rewrite bind_run, query_run. step.
  destruct (has_account w s account_name); step.
  - now rewrite query_run, after_run.
  - now rewrite raise_run, after_run.
Qed.

Lemma assert_authorized_run (w : World) (account_name : string)
    (auth_level : Authorization) (s : State w) :
  assert_authorized w account_name auth_level s =
  if has_account w s account_name then
    let account := get_account w s account_name in
    let checks := [HasAccount account_name; GetAccount account_name;
                   GetAuthorization account] in
    if (value (get_authorization w s account) <? value auth_level)%Z
    then mkRun (Raise (CommandException (not_authorized_text account_name))) s checks
    else mkRun (Ok account) s checks
  else mkRun (Raise (CommandException (no_account_text account_name))) s
             [HasAccount account_name].
Proof.
  unfold assert_authorized. rewrite bind_run, assert_is_account_run.
  destruct (has_account w s account_name); step; [|reflexivity].
  unfold_server. rewrite bind_run, query_run. step.
  destruct (value (get_authorization w s (get_account w s account_name))
            <? value auth_level)%Z.
  - now rewrite raise_run, !after_run.
  - now rewrite ret_run, !after_run.
Qed.

(** ** Transfers *)

Lemma perform_transfer_run (w : World) (s : State w)
    (author_name sender_name destination_name : string) (amount : Z) :
  has_account w s author_name = true ->
  has_account w s sender_name = true ->
  has_account w s destination_name = true ->
  let author := get_account w s author_name in
  let sender := get_account w s sender_name in
  let dest := get_account w s destination_name in
  let checks :=
    [HasAccount author_name; GetAccount author_name;
     HasAccount sender_name; GetAccount sender_name;
     HasAccount destination_name; GetAccount destination_name;
     CanTransfer sender dest amount] in
  perform_transfer w author_name sender_name destination_name amount s =
  if can_transfer w s sender dest amount then
    mkRun (Ok ("Transfer performed successfully." ++
               match fst (transfer w s author sender dest amount) with
               | Some p => " Proof: " ++ p ++ "."
               | None => ""
               end))
          (snd (transfer w s author sender dest amount))
          (checks ++ [DoTransfer author sender dest amount])
  else mkRun (Ok "Sorry, but I can't perform that transfer.") s checks.
Proof.
  intros Ha Hs Hd. cbv zeta.
  unfold perform_transfer.
  rewrite bind_run, assert_is_account_run, Ha. step.
  rewrite bind_run, assert_is_account_run, Hs. step.
  rewrite bind_run, assert_is_account_run, Hd. step.
  unfold_server. rewrite bind_run, query_run. step.
  destruct (can_transfer w s (get_account w s sender_name)
              (get_account w s destination_name) amount); step.
  - rewrite bind_run, command_run. step.
    rewrite ret_run, !after_run. reflexivity.
  - rewrite ret_run, !after_run. reflexivity.
Qed.

Lemma process_command_unfold (w : World) (author message : string) (s : State w) :
  process_command w author message s =
  process_command_body w (process_command_depth w (String.length message))
    author message s.
Proof. reflexivity. Qed.

Lemma getitem_transfer :
  getitem COMMANDS "transfer" =
  Some (mkEntry "transfer AMOUNT BENEFICIARY"
          "transfers AMOUNT to user BENEFICIARY's account."
          h_process_transfer None).
Proof. reflexivity. Qed.

Lemma try_except_run (w : World) (A : Type) (m : M w A) (h : string -> M w A)
    (s : State w) :
  try_except m h s =
  match outcome (m s) with
  | Raise (CommandException text) => after (calls (m s)) (h text (final (m s)))
  | _ => m s
  end.
Proof. reflexivity. Qed.

(** C5.  A message [transfer AMOUNT BENEFICIARY] with an integer amount,
    sent by an account holder to an account holder: the dispatcher looks
    the parties up, then asks [can_transfer] with the sender (the author),
    the recipient and the amount of the message, and calls [transfer] with
    the same parties and amount after that, and only when the answer was
    [True]; otherwise nothing is moved. *)
Theorem transfer_asks_can_transfer_first (w : World) (s : State w)
    (author message amount_text destination_name : string) (amount : Z) :
  split message = ["transfer"; amount_text; destination_name] ->
  int amount_text = Some amount ->
  (0 < amount)%Z ->
  has_account w s author = true ->
  has_account w s destination_name = true ->
  let sender := get_account w s author in
  let dest := get_account w s destination_name in
  let checks :=
    [HasAccount author; GetAccount author; HasAccount author; GetAccount author;
     HasAccount destination_name; GetAccount destination_name;
     CanTransfer sender dest amount] in
  let r := process_command w author message s in
  if can_transfer w s sender dest amount then
    calls r = (checks ++ [DoTransfer sender sender dest amount])%list /\
    final r = snd (transfer w s sender sender dest amount) /\
    exists proof_string,
      outcome r = Ok ("Transfer performed successfully." ++ proof_string)
  else
    calls r = checks /\ final r = s /\
    outcome r = Ok "Sorry, but I can't perform that transfer.".
Proof.
  intros Hsplit Hint _ Ha Hd. cbv zeta.
  rewrite process_command_unfold. unfold process_command_body.
  rewrite Hsplit, getitem_transfer. cbn [min_level handler_of call_handler].
  rewrite try_except_run, bind_run, ret_run. step. rewrite after_nil.
  unfold process_transfer, parse_transfer_command.
  rewrite Hsplit. cbn [List.length Nat.eqb negb]. rewrite Hint.
  rewrite (perform_transfer_run w s author author destination_name amount Ha Ha Hd).
  destruct (can_transfer w s (get_account w s author)
              (get_account w s destination_name) amount); step.
  - split; [reflexivity|]. split; [reflexivity|]. eexists. reflexivity.
  - split; [reflexivity|]. split; reflexivity.
Qed.

Lemma transfer_asks_can_transfer_first_witness :
  calls (process_command ref_world "bob" "transfer 5 alice" ref_ledger) =
    [HasAccount "bob"; GetAccount "bob"; HasAccount "bob"; GetAccount "bob";
     HasAccount "alice"; GetAccount "alice"; @CanTransfer ref_world "bob" "alice" 5;
     @DoTransfer ref_world "bob" "bob" "alice" 5] /\
  calls (process_command ref_world "bob" "transfer 50 alice" ref_ledger) =
    [HasAccount "bob"; GetAccount "bob"; HasAccount "bob"; GetAccount "bob";
     HasAccount "alice"; GetAccount "alice"; @CanTransfer ref_world "bob" "alice" 50].
Proof.
  split.
  - pose proof (transfer_asks_can_transfer_first ref_world ref_ledger
                  "bob" "transfer 5 alice" "5" "alice" 5
                  eq_refl eq_refl eq_refl eq_refl eq_refl) as H.
    exact (proj1 H).
  - pose proof (transfer_asks_can_transfer_first ref_world ref_ledger
                  "bob" "transfer 50 alice" "50" "alice" 50
                  eq_refl eq_refl eq_refl eq_refl eq_refl) as H.
    exact (proj1 H).
Defined.

(** ** The command listing *)

Lemma get_authorization_or_citizen_run (w : World) (author : string) (s : State w) :
  get_authorization_or_citizen w author s =
  mkRun (Ok (caller_level w s author)) s (level_calls w s author).
Proof.
  unfold get_authorization_or_citizen, caller_level, level_calls.
  unfold_server. rewrite bind_run, query_run. step.
  destruct (has_account w s author).
  - rewrite bind_run, query_run. step. now rewrite query_run, !after_run.
  - now rewrite ret_run, after_run.
Qed.

Lemma list_commands_from_run (w : World) (author : string) (s : State w)
    (names : list string) :
  (forall k, In k names -> getitem COMMANDS k <> None) ->
  list_commands_from w author names s =
  mkRun (Ok (map (fun ke => format_entry (snd ke))
               (filter (fun ke => visible_to (caller_level w s author) (snd ke))
                       (entries_of names))))
        s (listing_calls w s author names).
Proof.
  induction names as [|k rest IH]; intros Hin; [reflexivity|].
  assert (Hrest : forall k', In k' rest -> getitem COMMANDS k' <> None)
    by (intros k' Hk'; apply Hin; now right).
  specialize (IH Hrest).
  assert (Hk : getitem COMMANDS k <> None) by (apply Hin; now left).
  cbn [list_commands_from entries_of listing_calls flat_map].
  fold (entries_of rest). fold (listing_calls w s author rest).
  destruct (getitem COMMANDS k) as [e|]; [clear Hk|congruence].
  cbn [app filter snd]. unfold visible_to at 1.
  destruct (min_level e) as [m|] eqn:Em.
  - rewrite bind_run, bind_run, get_authorization_or_citizen_run. step.
    rewrite ret_run, after_run. step.
    rewrite bind_run, IH. step. rewrite ret_run, !after_run.
    rewrite Z.geb_leb, !List.app_nil_r.
    destruct (value m <=? value (caller_level w s author))%Z; reflexivity.
  - rewrite bind_run, ret_run. step.
    rewrite bind_run, IH. step. rewrite ret_run, !after_run.
    now rewrite !List.app_nil_r.
Qed.

Lemma sorted_keys_COMMANDS :
  sorted (keys COMMANDS) =
  ["add-public-key"; "admin-create-recurring-transfer"; "admin-open";
   "admin-transfer"; "authorize"; "balance"; "help"; "list"; "open";
   "print-money"; "proxy"; "transfer"].
Proof. vm_compute. reflexivity. Qed.

Lemma sorted_keys_found (k : string) :
  In k (sorted (keys COMMANDS)) -> getitem COMMANDS k <> None.
Proof.
  rewrite sorted_keys_COMMANDS. cbn [In].
  intros H; repeat (destruct H as [<-|H]; [discriminate|]); destruct H.
Qed.

Lemma list_commands_run (w : World) (author : string) (s : State w) :
  list_commands w author s =
  mkRun (Ok (map (fun ke => format_entry (snd ke))
               (listVisibleTo (caller_level w s author))))
        s (listing_calls w s author (sorted (keys COMMANDS))).
Proof.
  unfold list_commands.
  rewrite (list_commands_from_run w author s _ sorted_keys_found).
  reflexivity.
Qed.

Lemma entries_by_name_COMMANDS (ke : string * command_entry) :
  In ke entries_by_name <-> In ke COMMANDS.
Proof.
  replace entries_by_name with
    [nth 4 COMMANDS ke; nth 10 COMMANDS ke; nth 11 COMMANDS ke; nth 7 COMMANDS ke;
     nth 6 COMMANDS ke; nth 3 COMMANDS ke; nth 0 COMMANDS ke; nth 8 COMMANDS ke;
     nth 2 COMMANDS ke; nth 9 COMMANDS ke; nth 5 COMMANDS ke; nth 1 COMMANDS ke]
    by (vm_compute; reflexivity).
  unfold COMMANDS. cbn [nth In]. tauto.
Qed.

(** C8.  The listing made for a caller is the rendering, entry by entry,
    of [listVisibleTo] at the caller's level (the lowest level for a caller
    without an account): the registry's items in the order of their names,
    kept when they have no minimum level or one that is at most the
    caller's.  Listing does not change the server, so listing again gives
    the same sequence. *)
Theorem listing_sorted_and_filtered (w : World) (s : State w) (author : string) :
  let level := caller_level w s author in
  let r := list_commands w author s in
  outcome r = Ok (map (fun ke => format_entry (snd ke)) (listVisibleTo level)) /\
  final r = s /\
  StronglySorted (fun a b => String.ltb a b = true) (map fst (listVisibleTo level)) /\
  (forall k e,
     In (k, e) (listVisibleTo level) <->
     In (k, e) COMMANDS /\
     (min_level e = None \/
      exists m, min_level e = Some m /\ (value m <= value level)%Z)) /\
  outcome (list_commands w author (final r)) = outcome r.
Proof.
  cbv zeta. rewrite list_commands_run. step.
  split; [reflexivity|]. split; [reflexivity|]. split; [|split].
  - assert (Hs : forall level,
      StronglySorted (fun a b => String.ltb a b = true)
                     (map fst (listVisibleTo level))).
    { intros level.
      replace (map fst (listVisibleTo level)) with
        (match level with
         | CITIZEN => ["add-public-key"; "balance"; "help"; "open"; "proxy"; "transfer"]
         | _ => ["add-public-key"; "admin-create-recurring-transfer"; "admin-open";
                 "admin-transfer"; "authorize"; "balance"; "help"; "list"; "open";
                 "print-money"; "proxy"; "transfer"]
         end) by (destruct level; vm_compute; reflexivity).
      destruct level;
        repeat (apply SSorted_cons;
                [|repeat (apply Forall_cons; [vm_compute; reflexivity|]);
                  apply Forall_nil]);
        apply SSorted_nil. }
    apply Hs.
  - intros k e. unfold listVisibleTo. rewrite filter_In, entries_by_name_COMMANDS.
    cbn [snd]. unfold visible_to.
    destruct (min_level e) as [m|].
    + rewrite Z.leb_le. split.
      * intros [H1 H2]. split; [exact H1|]. right. now exists m.
      * intros [H1 [H2|[m' [[= <-] H2]]]]; [discriminate|]. now split.
    + split; intros [H1 _]; split; auto.
  - rewrite list_commands_run. reflexivity.
Qed.

(** ** The authorization gate *)

Lemma append_cancel_l (p x y : string) : p ++ x = p ++ y -> x = y.
Proof. induction p as [|c p IH]; cbn [append]; [auto|]. intros [= H]. auto. Qed.

Lemma denial_texts_differ (account_name : string) :
  no_account_text account_name <> not_authorized_text account_name.
Proof.
  unfold no_account_text, not_authorized_text. intros H.
  apply append_cancel_l, append_cancel_l in H. discriminate.
Qed.

(** C2, as the code has it.  For a command whose entry carries a minimum
    level above CITIZEN, the dispatcher's gate answers an author without an
    account with the "does not have an account yet" text, and an author
    whose level is below the minimum with the "does not have the required
    authorization" text.  The two texts are different; in both cases the
    handler is not run and the server is left as it was. *)
Theorem gate_denial_texts (w : World) (s : State w)
    (author message first : string) (rest : list string)
    (cmd : command_entry) (lvl : Authorization) :
  split message = first :: rest ->
  getitem COMMANDS first = Some cmd ->
  min_level cmd = Some lvl ->
  (value lvl > value CITIZEN)%Z ->
  (has_account w s author = false ->
   process_command w author message s =
   mkRun (Ok (no_account_text author)) s [HasAccount author]) /\
  (has_account w s author = true ->
   (value (get_authorization w s (get_account w s author)) < value lvl)%Z ->
   process_command w author message s =
   mkRun (Ok (not_authorized_text author)) s
         [HasAccount author; GetAccount author;
          GetAuthorization (get_account w s author)]) /\
  no_account_text author <> not_authorized_text author.
Proof.
  intros Hsplit Hget Hmin Hlvl.
  assert (Hgate : (value lvl >? value CITIZEN)%Z = true)
    by (apply Z.gtb_lt; lia).
  split; [|split; [|apply denial_texts_differ]].
  - intros Hno. rewrite process_command_unfold. unfold process_command_body.
    rewrite Hsplit, Hget, Hmin, Hgate.
    rewrite try_except_run, bind_run, bind_run, assert_authorized_run, Hno.
    step. now rewrite ret_run, after_run.
  - intros Hyes Hlow. rewrite process_command_unfold. unfold process_command_body.
    rewrite Hsplit, Hget, Hmin, Hgate.
    rewrite try_except_run, bind_run, bind_run, assert_authorized_run, Hyes.
    cbv zeta. apply Z.ltb_lt in Hlow. rewrite Hlow.
    step. now rewrite ret_run, after_run.
Qed.

Lemma gate_denial_texts_witness :
  process_command ref_world "bob" "list" ref_empty =
    mkRun (Ok (no_account_text "bob")) ref_empty [HasAccount "bob"] /\
  process_command ref_world "bob" "print-money 5 bob" ref_ledger =
    mkRun (Ok (not_authorized_text "bob")) ref_ledger
          [HasAccount "bob"; GetAccount "bob"; @GetAuthorization ref_world "bob"].
Proof.
  split.
  - destruct (gate_denial_texts ref_world ref_empty "bob" "list" "list" []
                (mkEntry "list" "lists all accounts and the balance on the accounts."
                   h_process_list_accounts (Some ADMIN)) ADMIN
                eq_refl eq_refl eq_refl eq_refl) as [H _].
    apply H. reflexivity.
  - destruct (gate_denial_texts ref_world ref_ledger "bob" "print-money 5 bob"
                "print-money" ["5"; "bob"]
                (mkEntry "print-money AMOUNT BENEFICIARY"
                   "generates AMOUNT money and deposits it in BENEFICIARY's account."
                   h_process_print_money (Some ADMIN)) ADMIN
                eq_refl eq_refl eq_refl eq_refl) as [_ [H _]].
    apply H; reflexivity.
Defined.

(** C2, as the specification words it, fails: [list] asked by bob gets one
    text where bob has no account and another where bob is a citizen. *)
Lemma gate_denial_reveals_cause :
  getitem COMMANDS "list"
    = Some (mkEntry "list" "lists all accounts and the balance on the accounts."
              h_process_list_accounts (Some ADMIN)) /\
  has_account ref_world ref_empty "bob" = false /\
  has_account ref_world ref_ledger "bob" = true /\
  get_authorization ref_world ref_ledger (get_account ref_world ref_ledger "bob")
    = CITIZEN /\
  outcome (process_command ref_world "bob" "list" ref_empty)
    = Ok "Sorry, I can't process your request because `bob` does not have an account yet." /\
  outcome (process_command ref_world "bob" "list" ref_ledger)
    = Ok "Sorry, I can't process your request because `bob` does not have the required authorization." /\
  outcome (process_command ref_world "bob" "list" ref_empty)
    <> outcome (process_command ref_world "bob" "list" ref_ledger).
Proof.
  split; [reflexivity|]. split; [reflexivity|]. split; [reflexivity|].
  split; [reflexivity|]. split; [vm_compute; reflexivity|].
  split; [vm_compute; reflexivity|].
  vm_compute. discriminate.
Qed.

(** ** The proxy protocol *)

Lemma getitem_proxy :
  getitem COMMANDS "proxy" =
  Some (mkEntry "proxy dsa PROXIED_ACCOUNT SIGNATURE"
          ("makes PROXIED_ACCOUNT describes the action described in the remainder of the message (starting on the next line). " ++
           "SIGNATURE must be an ECDSA-signed SHA3-512 hash of the remainder of the message, where the key that signs the " ++
           "message must have its public key associated with the proxied account. This command allows a user or application to " ++
           "safely perform actions on an account holder's behalf.")
          h_process_proxy_command None).
Proof. reflexivity. Qed.

(** The dispatcher hands a message named [proxy] to the proxy handler,
    ungated, and turns its [CommandException] into the reply. *)
Lemma process_command_proxy (w : World) (author message : string)
    (rest : list string) (s : State w) :
  split message = "proxy" :: rest ->
  process_command w author message s =
  try_except
    (process_proxy_command_with w
       (process_command_depth w (String.length message)) author message)
    (fun text => ret text) s.
Proof.
  intros Hsplit. rewrite process_command_unfold. unfold process_command_body.
  rewrite Hsplit, getitem_proxy. cbn [min_level handler_of call_handler].
  rewrite !try_except_run, bind_run, ret_run. step.
  now rewrite after_nil.
Qed.

Lemma verify_any_run (w : World) (h : Hash) (signature : bytes)
    (key_list : list (PublicKey w)) (s : State w) :
  verify_any w h signature key_list s =
  mkRun (Ok (existsb (fun k => dss_verify w k h signature) key_list)) s
        (map (fun k => Verify k h signature)
             (keys_tried (fun k => dss_verify w k h signature) key_list)).
Proof.
  induction key_list as [|k rest IH]; [reflexivity|].
  cbn [verify_any existsb keys_tried]. rewrite bind_run.
  unfold verifier_verify. rewrite query_run. step.
  destruct (dss_verify w k h signature).
  - now rewrite ret_run, after_run.
  - now rewrite IH, after_run.
Qed.

Lemma process_proxy_command_with_run (w : World)
    (self : string -> string -> M w string) (author message : string)
    (account_name command : string) (signature : bytes) (s : State w) :
  parse_proxy_command w message = Ok (account_name, signature, command) ->
  has_account w s account_name = true ->
  process_proxy_command_with w self author message s =
  if existsb (fun k => dss_verify w k (SHA3_512 command) signature)
             (list_public_keys w s (get_account w s account_name))
  then after (proxy_checks w s account_name command signature)
             (self account_name command s)
  else mkRun (Raise (CommandException invalid_signature_text)) s
             (proxy_checks w s account_name command signature).
Proof.
  intros Hparse Hacc. unfold process_proxy_command_with, proxy_checks.
  rewrite bind_run. unfold lift. step. rewrite Hparse. step. rewrite after_nil.
  rewrite bind_run, assert_is_account_run, Hacc. step.
  unfold account_list_public_keys. rewrite bind_run, query_run. step.
  rewrite bind_run, verify_any_run. step.
  destruct (existsb _ _).
  - now rewrite !after_after.
  - now rewrite raise_run, !after_run, List.app_nil_r.
Qed.


(** C10.  A well-formed envelope that names an existing account without
    any registered key is refused with the invalid-signature exception
    whatever its signature; only the account and its key list were read,
    nothing was verified or dispatched, and the server is as it was. *)
Theorem no_keys_no_proxy (w : World) (s : State w) (author message : string)
    (account_name command : string) (signature : bytes) :
  parse_proxy_command w message = Ok (account_name, signature, command) ->
  has_account w s account_name = true ->
  list_public_keys w s (get_account w s account_name) = [] ->
  process_proxy_command w author message s =
  mkRun (Raise (CommandException invalid_signature_text)) s
        [HasAccount account_name; GetAccount account_name;
         ListPublicKeys (get_account w s account_name)].
Proof.
  intros Hparse Hacc Hkeys. unfold process_proxy_command.
  rewrite (process_proxy_command_with_run w _ author message _ _ _ s Hparse Hacc).
  unfold proxy_checks. rewrite Hkeys. reflexivity.
Qed.

Lemma keys_tried_first (K : Type) (verifies : K -> bool) (pre post : list K) (k : K) :
  (forall k', In k' pre -> verifies k' = false) -> verifies k = true ->
  keys_tried verifies (pre ++ k :: post) = (pre ++ [k])%list /\
  existsb verifies (pre ++ k :: post) = true.
Proof.
  intros Hpre Hk. induction pre as [|p pre IH]; simpl.
  - now rewrite Hk.
  - rewrite (Hpre p (or_introl eq_refl)).
    destruct IH as [-> ->]; [intros; apply Hpre; now right|]. auto.
Qed.

Lemma keys_tried_none (K : Type) (verifies : K -> bool) (l : list K) :
  (forall k, In k l -> verifies k = false) ->
  keys_tried verifies l = l /\ existsb verifies l = false.
Proof.
  intros H. induction l as [|k l IH]; simpl; [auto|].
  rewrite (H k (or_introl eq_refl)).
  destruct IH as [-> ->]; [intros; apply H; now right|]. auto.
Qed.

(** C3.  With a well-formed envelope for an existing account,
    [process_proxy_command] verifies the signature against the SHA3-512
    hash of the inner command with the account's keys in their stored
    order.  At the first key that verifies it stops (the keys after it are
    not tried) and re-enters the dispatcher as the proxied account; when no
    key verifies, every key has been tried once and the result is the
    invalid-signature exception, with nothing dispatched and the server
    unchanged. *)
Theorem keys_tried_in_order (w : World) (s : State w) (author message : string)
    (account_name command : string) (signature : bytes) :
  parse_proxy_command w message = Ok (account_name, signature, command) ->
  has_account w s account_name = true ->
  list_public_keys w s (get_account w s account_name) <> [] ->
  let account := get_account w s account_name in
  let verifies := fun k => dss_verify w k (SHA3_512 command) signature in
  let lookups := [HasAccount account_name; GetAccount account_name;
                  ListPublicKeys account] in
  let attempt := fun k => Verify k (SHA3_512 command) signature in
  (forall pre k post,
     list_public_keys w s account = (pre ++ k :: post)%list ->
     (forall k', In k' pre -> verifies k' = false) -> verifies k = true ->
     process_proxy_command w author message s =
     after (lookups ++ map attempt (pre ++ [k]))
           (process_command w account_name command s)) /\
  ((forall k, In k (list_public_keys w s account) -> verifies k = false) ->
     process_proxy_command w author message s =
     mkRun (Raise (CommandException invalid_signature_text)) s
           (lookups ++ map attempt (list_public_keys w s account))).
Proof.
  intros Hparse Hacc _. cbv zeta. split.
  - intros pre k post Hkeys Hpre Hk. unfold process_proxy_command.
    rewrite (process_proxy_command_with_run w _ author message _ _ _ s Hparse Hacc).
    unfold proxy_checks. rewrite Hkeys.
    destruct (keys_tried_first _ _ pre post k Hpre Hk) as [-> ->]. reflexivity.
  - intros Hnone. unfold process_proxy_command.
    rewrite (process_proxy_command_with_run w _ author message _ _ _ s Hparse Hacc).
    unfold proxy_checks.
    destruct (keys_tried_none _ _ _ Hnone) as [-> ->]. reflexivity.
Qed.

Lemma no_keys_no_proxy_witness :
  process_proxy_command ref_world "mallory"
    ("proxy dsa carol TQ==" ++ nl ++ "print-money 5 carol")
    (open_account ref_world ref_empty "carol") =
  mkRun (Raise (CommandException invalid_signature_text))
        (open_account ref_world ref_empty "carol")
        [HasAccount "carol"; GetAccount "carol"; @ListPublicKeys ref_world "carol"].
Proof.
  apply (no_keys_no_proxy ref_world (open_account ref_world ref_empty "carol")
           "mallory" ("proxy dsa carol TQ==" ++ nl ++ "print-money 5 carol")
           "carol" "print-money 5 carol" "M");
    reflexivity.
Defined.

Lemma keys_tried_in_order_witness :
  process_proxy_command ref_world "mallory"
    ("proxy dsa bob " ++ ref_b64encode (ref_sign 3 (SHA3_512 "balance")) ++ nl ++ "balance")
    ref_ledger =
  after [HasAccount "bob"; GetAccount "bob"; @ListPublicKeys ref_world "bob";
         @Verify ref_world 3%nat (SHA3_512 "balance") (ref_sign 3 (SHA3_512 "balance"))]
        (process_command ref_world "bob" "balance" ref_ledger) /\
  process_proxy_command ref_world "mallory"
    ("proxy dsa bob " ++ ref_b64encode (ref_sign 7 (SHA3_512 "balance")) ++ nl ++ "balance")
    ref_ledger =
  mkRun (Raise (CommandException invalid_signature_text)) ref_ledger
        [HasAccount "bob"; GetAccount "bob"; @ListPublicKeys ref_world "bob";
         @Verify ref_world 3%nat (SHA3_512 "balance") (ref_sign 7 (SHA3_512 "balance"));
         @Verify ref_world 5%nat (SHA3_512 "balance") (ref_sign 7 (SHA3_512 "balance"))].
Proof.
  split.
  - destruct (keys_tried_in_order ref_world ref_ledger "mallory"
                ("proxy dsa bob " ++ ref_b64encode (ref_sign 3 (SHA3_512 "balance"))
                 ++ nl ++ "balance")
                "bob" "balance" (ref_sign 3 (SHA3_512 "balance"))
                eq_refl eq_refl) as [H _].
    + discriminate.
    + apply (H [] 3%nat [5%nat]); [reflexivity| |reflexivity].
      intros k' [].
  - destruct (keys_tried_in_order ref_world ref_ledger "mallory"
                ("proxy dsa bob " ++ ref_b64encode (ref_sign 7 (SHA3_512 "balance"))
                 ++ nl ++ "balance")
                "bob" "balance" (ref_sign 7 (SHA3_512 "balance"))
                eq_refl eq_refl) as [_ H].
    + discriminate.
    + apply H. intros k [<-|[<-|[]]]; reflexivity.
Defined.

(** ** Envelopes that do not decode *)





(** ** The outer author *)

(** C9.  [process_proxy_command] does not look at its author: two
    authors get the same result, log and final state from the same message
    in the same server state.  The same holds one level up, for a message
    the dispatcher takes as a [proxy] command: its entry carries no
    minimum level, so the author is not even looked up. *)
Theorem proxy_ignores_outer_author (w : World) (s : State w)
    (author1 author2 message : string) :
  process_proxy_command w author1 message s =
  process_proxy_command w author2 message s /\
  (forall rest, split message = "proxy" :: rest ->
     process_command w author1 message s = process_command w author2 message s).
Proof.
  split; [reflexivity|].
  intros rest Hsplit.
  rewrite (process_command_proxy w author1 message rest s Hsplit).
  rewrite (process_command_proxy w author2 message rest s Hsplit).
  reflexivity.
Qed.

Lemma proxy_ignores_outer_author_witness :
  has_account ref_world ref_ledger "mallory" = false /\
  get_authorization ref_world ref_ledger "alice" = ADMIN /\
  process_command ref_world "mallory"
    ("proxy dsa bob " ++ ref_b64encode (ref_sign 5 (SHA3_512 "balance")) ++ nl ++ "balance")
    ref_ledger =
  process_command ref_world "alice"
    ("proxy dsa bob " ++ ref_b64encode (ref_sign 5 (SHA3_512 "balance")) ++ nl ++ "balance")
    ref_ledger.
Proof.
  split; [reflexivity|]. split; [reflexivity|].
  destruct (proxy_ignores_outer_author ref_world ref_ledger "mallory" "alice"
    ("proxy dsa bob " ++ ref_b64encode (ref_sign 5 (SHA3_512 "balance")) ++ nl ++ "balance"))
    as [_ H].
  apply (H ["dsa"; "bob"; ref_b64encode (ref_sign 5 (SHA3_512 "balance")); "balance"]).
  reflexivity.
Defined.

(** ** The depth of the recursion *)

Lemma parse_proxy_command_shorter (w : World) (message account_name command : string)
    (signature : bytes) :
  parse_proxy_command w message = Ok (account_name, signature, command) ->
  String.length command < String.length message.
Proof.
  unfold parse_proxy_command, parse_impl.
  destruct (split_once "010" message) as [|h [|b [|c l]]] eqn:Hsplit;
    try discriminate.
  destruct (split h) as [|t1 [|t2 [|t3 [|t4 [|t5 l]]]]]; try discriminate.
  destruct (negb (String.eqb t2 "dsa")); [discriminate|].
  destruct (b64decode w t4); [discriminate|].
  intros [= _ _ <-].
  pose proof (length_split_once _ _ _ _ Hsplit).
  pose proof (length_strip_chars is_newline_or_return b). lia.
Qed.

Lemma process_proxy_command_with_ext (w : World)
    (self1 self2 : string -> string -> M w string)
    (author message : string) (s : State w) :
  (forall account_name signature command,
     parse_proxy_command w message = Ok (account_name, signature, command) ->
     forall s', self1 account_name command s' = self2 account_name command s') ->
  process_proxy_command_with w self1 author message s =
  process_proxy_command_with w self2 author message s.
Proof.
  intros H. unfold process_proxy_command_with.
  rewrite !(bind_run _ _ _ (lift _)). unfold lift. step.
  destruct (parse_proxy_command w message) as [[[account_name signature] command]|e];
    [|reflexivity].
  f_equal. apply bind_ext. intros account s1.
  apply bind_ext. intros key_list s2.
  apply bind_ext. intros any_verified s3.
  destruct any_verified; [|reflexivity].
  now apply (H account_name signature command).
Qed.

Lemma process_command_body_ext (w : World)
    (self1 self2 : string -> string -> M w string)
    (author message : string) (s : State w) :
  (forall author' message' s',
     String.length message' < String.length message ->
     self1 author' message' s' = self2 author' message' s') ->
  process_command_body w self1 author message s =
  process_command_body w self2 author message s.
Proof.
  intros H. unfold process_command_body.
  destruct (split message) as [|first rest]; [reflexivity|].
  destruct (getitem COMMANDS first) as [cmd|]; [|reflexivity].
  rewrite !try_except_run.
  assert (E : forall (gate : M w unit),
    bind gate (fun _ => call_handler w self1 (handler_of cmd) author message) s =
    bind gate (fun _ => call_handler w self2 (handler_of cmd) author message) s).
  { intros gate. apply bind_ext. intros _ s'.
    destruct (handler_of cmd); try reflexivity.
    cbn [call_handler]. apply process_proxy_command_with_ext.
    intros account_name signature command Hparse s''.
    apply H. eapply parse_proxy_command_shorter, Hparse. }
  now rewrite E.
Qed.

(** Any depth above the length of the message gives the same run. *)
Lemma process_command_depth_enough (w : World) (depth : nat) :
  forall author message s,
    String.length message < depth ->
    process_command_depth w depth author message s =
    process_command w author message s.
Proof.
  induction depth as [depth IH] using lt_wf_ind.
  intros author message s Hlen.
  destruct depth as [|d]; [lia|].
  unfold process_command. cbn [process_command_depth].
  apply process_command_body_ext.
  intros author' message' s' Hshort.
  rewrite (IH d) by lia.
  rewrite (IH (String.length message)) by lia.
  reflexivity.
Qed.

(** The equation of the source: [process_command] is its body with
    itself in the place of the re-entry. *)
Lemma process_command_equation (w : World) (author message : string) (s : State w) :
  process_command w author message s =
  process_command_body w (process_command w) author message s.
Proof.
  rewrite process_command_unfold. apply process_command_body_ext.
  intros author' message' s' Hshort.
  now apply process_command_depth_enough.
Qed.

Lemma process_command_proxy_equation (w : World) (author message : string)
    (rest : list string) (s : State w) :
  split message = "proxy" :: rest ->
  process_command w author message s =
  try_except (process_proxy_command w author message) (fun text => ret text) s.
Proof.
  intros Hsplit. rewrite process_command_equation. unfold process_command_body.
  rewrite Hsplit, getitem_proxy. cbn [min_level handler_of call_handler].
  unfold process_proxy_command. rewrite !try_except_run, bind_run, ret_run. step.
  now rewrite after_nil.
Qed.

(** ** Every message is answered *)

Lemma no_crash_bind (w : World) (A B : Type) (m : M w A) (k : A -> M w B)
    (s : State w) :
  no_crash (m s) -> (forall a s', no_crash (k a s')) -> no_crash (bind m k s).
Proof.
  intros Hm Hk. unfold no_crash in *. rewrite bind_run.
  destruct (outcome (m s)) as [a|e]; [apply Hk|exact Hm].
Qed.

Lemma no_crash_query (w : World) (A : Type) (c : call w) (f : State w -> A)
    (s : State w) : no_crash (query c f s).
Proof. exact I. Qed.

Lemma no_crash_command (w : World) (A : Type) (c : call w)
    (f : State w -> A * State w) (s : State w) : no_crash (command c f s).
Proof. exact I. Qed.

Lemma no_crash_ret (w : World) (A : Type) (a : A) (s : State w) :
  no_crash (ret a s).
Proof. exact I. Qed.

Lemma no_crash_raise (w : World) (A : Type) (text : string) (s : State w) :
  no_crash (raise (A := A) (CommandException text) s).
Proof. exact I. Qed.

Lemma no_crash_for_each (w : World) (A B : Type) (f : A -> M w B) (l : list A) :
  (forall a s, no_crash (f a s)) -> forall s, no_crash (for_each f l s).
Proof.
  intros Hf. induction l as [|x l IH]; intros s; [exact I|].
  cbn [for_each]. apply no_crash_bind; [apply Hf|]. intros y s'.
  apply no_crash_bind; [apply IH|]. intros ys s''. exact I.
Qed.

Lemma no_crash_assert_is_account (w : World) (account_name : string) (s : State w) :
  no_crash (assert_is_account w account_name s).
Proof.
  unfold no_crash. rewrite assert_is_account_run.
  destruct (has_account w s account_name); exact I.
Qed.

Lemma no_crash_assert_authorized (w : World) (account_name : string)
    (auth_level : Authorization) (s : State w) :
  no_crash (assert_authorized w account_name auth_level s).
Proof.
  unfold no_crash. rewrite assert_authorized_run.
  destruct (has_account w s account_name); [|exact I]. cbv zeta.
  destruct (_ <? _)%Z; exact I.
Qed.

Ltac no_crash_step :=
  lazymatch goal with
  | |- no_crash (bind _ _ _) => apply no_crash_bind; [|intros ? ?]
  | |- no_crash (query _ _ _) => apply no_crash_query
  | |- no_crash (command _ _ _) => apply no_crash_command
  | |- no_crash (ret _ _) => apply no_crash_ret
  | |- no_crash (raise (CommandException _) _) => apply no_crash_raise
  | |- no_crash (assert_is_account _ _ _) => apply no_crash_assert_is_account
  | |- no_crash (assert_authorized _ _ _ _) => apply no_crash_assert_authorized
  | |- no_crash ((if ?b then _ else _) _) => destruct b
  | |- no_crash (match ?x with _ => _ end _) => destruct x
  end.

Ltac no_crash_auto := unfold_server; cbv zeta; repeat no_crash_step.

Lemma no_crash_perform_transfer (w : World) (a b c : string) (amount : Z)
    (s : State w) :
  no_crash (perform_transfer w a b c amount s).
Proof. unfold perform_transfer. no_crash_auto. Qed.

Lemma no_crash_list_commands_as_markdown (w : World) (author : string) (s : State w) :
  no_crash (list_commands_as_markdown w author s).
Proof.
  unfold list_commands_as_markdown. apply no_crash_bind.
  - unfold no_crash. now rewrite list_commands_run.
  - intros items s'. exact I.
Qed.

Lemma parse_proxy_command_no_crash (w : World) (message : string) :
  match parse_proxy_command w message with
  | Ok _ => True
  | Raise (CommandException _) => True
  | Raise _ => False
  end.
Proof.
  unfold parse_proxy_command, parse_impl.
  destruct (split_once "010" message) as [|h [|b [|c l]]]; try exact I.
  destruct (split h) as [|t1 [|t2 [|t3 [|t4 [|t5 l]]]]]; try exact I.
  destruct (negb (String.eqb t2 "dsa")); [exact I|].
  destruct (b64decode w t4); exact I.
Qed.

Lemma no_crash_verify_any (w : World) (h : Hash) (signature : bytes)
    (key_list : list (PublicKey w)) (s : State w) :
  no_crash (verify_any w h signature key_list s).
Proof. unfold no_crash. now rewrite verify_any_run. Qed.

Lemma no_crash_process_proxy_command_with (w : World)
    (self : string -> string -> M w string) (author message : string)
    (s : State w) :
  (forall account_name signature command,
     parse_proxy_command w message = Ok (account_name, signature, command) ->
     forall s', no_crash (self account_name command s')) ->
  no_crash (process_proxy_command_with w self author message s).
Proof.
  intros Hself. unfold process_proxy_command_with.
  rewrite bind_run. unfold lift. step.
  pose proof (parse_proxy_command_no_crash w message) as Hp.
  destruct (parse_proxy_command w message)
    as [[[account_name signature] command]|e] eqn:E; [|exact Hp].
  step. rewrite after_nil.
  apply no_crash_bind; [apply no_crash_assert_is_account|]. intros account s1.
  apply no_crash_bind; [apply no_crash_query|]. intros key_list s2.
  apply no_crash_bind; [apply no_crash_verify_any|]. intros any_verified s3.
  destruct any_verified; [|apply no_crash_raise].
  now apply (Hself account_name signature command).
Qed.

Lemma no_crash_call_handler (w : World) (self : string -> string -> M w string)
    (h : handler) (author message : string) (s : State w) :
  (forall account_name signature command,
     parse_proxy_command w message = Ok (account_name, signature, command) ->
     forall s', no_crash (self account_name command s')) ->
  no_crash (call_handler w self h author message s).
Proof.
  intros Hself. destruct h; cbn [call_handler].
  - unfold process_help. apply no_crash_bind;
      [apply no_crash_list_commands_as_markdown|intros; apply no_crash_ret].
  - unfold process_transfer.
    destruct (parse_transfer_command message) as [[amount dest]|];
      [apply no_crash_perform_transfer|apply no_crash_ret].
  - unfold process_open_account. no_crash_auto.
  - unfold process_balance. no_crash_auto.
  - unfold process_add_public_key. no_crash_auto.
  - now apply no_crash_process_proxy_command_with.
  - unfold process_authorization. no_crash_auto.
  - unfold process_admin_transfer.
    apply no_crash_bind; [apply no_crash_assert_authorized|]. intros account s'.
    destruct (parse_admin_transfer_command message) as [[[sender amount] dest]|];
      [apply no_crash_perform_transfer|apply no_crash_ret].
  - unfold process_list_accounts.
    apply no_crash_bind; [apply no_crash_query|]. intros accounts s'.
    apply no_crash_bind; [|intros; apply no_crash_ret].
    apply no_crash_for_each. intros a s''. no_crash_auto.
  - unfold process_print_money. no_crash_auto.
  - unfold process_admin_create_recurring_transfer. no_crash_auto.
  - unfold process_admin_open_account. no_crash_auto.
Qed.

Lemma listing_reply (w : World) (author : string) (k : string -> string)
    (s : State w) :
  is_ok (outcome (bind (list_commands_as_markdown w author)
                       (fun listing => ret (k listing)) s)) = true.
Proof.
  rewrite bind_run. unfold list_commands_as_markdown.
  rewrite bind_run, list_commands_run. step.
  rewrite ret_run, after_run. step. now rewrite ret_run.
Qed.

Lemma process_command_body_replies (w : World)
    (self : string -> string -> M w string) (author message : string)
    (s : State w) :
  (forall account_name signature command,
     parse_proxy_command w message = Ok (account_name, signature, command) ->
     forall s', no_crash (self account_name command s')) ->
  is_ok (outcome (process_command_body w self author message s)) = true.
Proof.
  intros Hself. unfold process_command_body.
  destruct (split message) as [|first rest].
  - apply listing_reply.
  - destruct (getitem COMMANDS first) as [cmd|].
    + rewrite try_except_run.
      match goal with
      | |- context [outcome (bind ?g ?k s)] =>
          assert (Hn : no_crash (bind g k s))
      end.
      { apply no_crash_bind.
        - destruct (min_level cmd) as [lvl|]; [|apply no_crash_ret].
          destruct (value lvl >? value CITIZEN)%Z; [|apply no_crash_ret].
          apply no_crash_bind; [apply no_crash_assert_authorized|].
          intros; apply no_crash_ret.
        - intros _ s'. now apply no_crash_call_handler. }
      unfold no_crash in Hn.
      match goal with
      | |- context [outcome (bind ?g ?k s)] =>
          destruct (outcome (bind g k s)) as [reply|[text| |]] eqn:E
      end; try contradiction.
      * rewrite E. reflexivity.
      * now rewrite ret_run.
    + apply listing_reply.
Qed.

(** The dispatcher answers every message with a string. *)
Lemma process_command_replies (w : World) (author message : string) (s : State w) :
  is_ok (outcome (process_command w author message s)) = true.
Proof.
  remember (String.length message) as n eqn:Hn.
  revert author message s Hn.
  induction n as [n IH] using lt_wf_ind. intros author message s Hn.
  rewrite process_command_equation. apply process_command_body_replies.
  intros account_name signature command Hparse s'.
  pose proof (parse_proxy_command_shorter w _ _ _ _ Hparse) as Hshort.
  specialize (IH (String.length command) ltac:(lia) account_name command s' eq_refl).
  unfold no_crash. destruct (outcome (process_command w account_name command s'));
    [exact I|discriminate].
Qed.

(** ** Composing and processing an envelope *)

Lemma string_app_assoc (a b c : string) : (a ++ b) ++ c = a ++ (b ++ c).
Proof. induction a as [|x a IH]; cbn [append]; [reflexivity|]. now rewrite IH. Qed.

Lemma lacks_append (sep : ascii) (a b : string) :
  lacks sep (a ++ b) = lacks sep a && lacks sep b.
Proof.
  induction a as [|x a IH]; cbn [append lacks]; [reflexivity|].
  rewrite IH. now rewrite andb_assoc.
Qed.

Lemma no_space_lacks_newline (s : string) :
  no_space s = true -> lacks "010" s = true.
Proof.
  induction s as [|c r IH]; cbn [no_space lacks]; [reflexivity|].
  intros H. apply andb_true_iff in H. destruct H as [Hc Hr].
  rewrite (IH Hr), andb_true_r.
  destruct (Ascii.eqb_spec c "010") as [->|]; [discriminate Hc|reflexivity].
Qed.

Lemma is_token_no_space (s : string) : is_token s = true -> no_space s = true.
Proof. destruct s; [discriminate|auto]. Qed.

Lemma split_once_lacks (sep : ascii) (h b : string) :
  lacks sep h = true -> split_once sep (h ++ String sep b) = [h; b].
Proof.
  induction h as [|c r IH]; cbn [append split_once lacks].
  - intros _. now rewrite Ascii.eqb_refl.
  - intros H. apply andb_true_iff in H. destruct H as [Hc Hr].
    apply negb_true_iff in Hc. rewrite Hc, (IH Hr). reflexivity.
Qed.

Lemma split_header (account_name enc_signature : string) :
  is_token account_name = true -> is_token enc_signature = true ->
  split ("proxy dsa " ++ account_name ++ String " " enc_signature) =
  ["proxy"; "dsa"; account_name; enc_signature].
Proof.
  intros Hn Hs.
  change ("proxy dsa " ++ account_name ++ String " " enc_signature)
    with ("proxy" ++ String " " ("dsa" ++ String " "
            (account_name ++ String " " enc_signature))).
  rewrite (split_token_then "proxy" (String " " _)) by reflexivity.
  rewrite split_space by reflexivity.
  rewrite (split_token_then "dsa" (String " " _)) by reflexivity.
  rewrite split_space by reflexivity.
  rewrite (split_token_then account_name (String " " _)) by (exact Hn || reflexivity).
  rewrite split_space by reflexivity.
  now rewrite (split_token _ Hs).
Qed.

Lemma compose_proxy_command_shape (w : World) (account_name : string)
    (key : PrivateKey w) (nonce : Nonce w) (body : string) :
  compose_proxy_command w account_name key nonce body =
  ("proxy dsa " ++ account_name ++
   String " " (b64encode w (dss_sign w key nonce (SHA3_512 (strip body))))) ++
  String "010" (strip body).
Proof.
  unfold compose_proxy_command. rewrite !string_app_assoc. reflexivity.
Qed.

(** What was composed is what gets parsed: the account, the signature and
    the text that was signed. *)
Lemma parse_composed (w : World) (account_name : string)
    (key : PrivateKey w) (nonce : Nonce w) (body : string) :
  let signature := dss_sign w key nonce (SHA3_512 (strip body)) in
  is_token account_name = true ->
  is_token (b64encode w signature) = true ->
  b64decode w (b64encode w signature) = inr signature ->
  parse_proxy_command w (compose_proxy_command w account_name key nonce body) =
  Ok (account_name, signature, strip body).
Proof.
  cbv zeta. intros Hn Hs Hb.
  unfold parse_proxy_command, parse_impl.
  rewrite compose_proxy_command_shape, split_once_lacks.
  - rewrite (split_header _ _ Hn Hs).
    cbn [String.eqb Ascii.eqb Bool.eqb negb]. rewrite Hb.
    unfold strip.
    now rewrite (strip_chars_weaker _ _ _ newline_or_return_is_space).
  - rewrite !lacks_append. cbn [lacks Ascii.eqb Bool.eqb negb andb].
    rewrite (no_space_lacks_newline _ (is_token_no_space _ Hn)).
    now rewrite (no_space_lacks_newline _ (is_token_no_space _ Hs)).
Qed.

(** C1, as the code has it.  Take an existing account whose name is one
    whitespace-free token, a base64 codec that gives back the signature it
    encoded as one token, and a signature service under which a registered
    key verifies the composed signature exactly when it is the public key
    of the signing key.  Then the composed envelope decodes to the account,
    the signature and the very text that was signed (the stripped body),
    and processing it succeeds if and only if the signer's public key is
    registered: it then runs the signed text as the proxied account, and
    otherwise raises the invalid-signature exception and changes nothing. *)
Theorem proxy_round_trip (w : World) (s : State w)
    (author account_name body : string) (key : PrivateKey w) (nonce : Nonce w) :
  let command := strip body in
  let signature := dss_sign w key nonce (SHA3_512 command) in
  let envelope := compose_proxy_command w account_name key nonce body in
  let key_list := list_public_keys w s (get_account w s account_name) in
  let checks := proxy_checks w s account_name command signature in
  is_token account_name = true ->
  has_account w s account_name = true ->
  is_token (b64encode w signature) = true ->
  b64decode w (b64encode w signature) = inr signature ->
  (forall k, In k key_list ->
     (dss_verify w k (SHA3_512 command) signature = true <-> k = public_key w key)) ->
  parse_proxy_command w envelope = Ok (account_name, signature, command) /\
  (is_ok (outcome (process_proxy_command w author envelope s)) = true <->
   In (public_key w key) key_list) /\
  (In (public_key w key) key_list ->
   process_proxy_command w author envelope s =
   after checks (process_command w account_name command s)) /\
  (~ In (public_key w key) key_list ->
   process_proxy_command w author envelope s =
   mkRun (Raise (CommandException invalid_signature_text)) s checks).
Proof.
  cbv zeta. intros Hn Hacc Hs Hb Hideal.
  pose proof (parse_composed w account_name key nonce body Hn Hs Hb) as Hparse.
  cbv zeta in Hparse.
  pose proof (process_proxy_command_with_run w (process_command w) author _ _ _ _ s
                Hparse Hacc) as Hrun.
  fold (process_proxy_command w author
          (compose_proxy_command w account_name key nonce body) s) in Hrun.
  set (verifies := fun k => dss_verify w k (SHA3_512 (strip body))
                              (dss_sign w key nonce (SHA3_512 (strip body)))) in *.
  assert (Hex : existsb verifies
                  (list_public_keys w s (get_account w s account_name)) = true <->
                In (public_key w key)
                  (list_public_keys w s (get_account w s account_name))).
  { rewrite existsb_exists. split.
    - intros [k [Hin Hk]]. apply (Hideal k Hin) in Hk. now subst k.
    - intros Hin. exists (public_key w key). split; [exact Hin|].
      now apply (Hideal _ Hin). }
  split; [exact Hparse|]. split; [|split].
  - rewrite Hrun.
    destruct (existsb verifies _) eqn:E.
    + unfold after. step. rewrite process_command_replies. tauto.
    + step. split; [discriminate|]. intros Hin. apply Hex in Hin. discriminate.
  - intros Hin. apply Hex in Hin. now rewrite Hrun, Hin.
  - intros Hnot. rewrite Hrun.
    destruct (existsb verifies _) eqn:E; [|reflexivity].
    contradiction Hnot. now apply Hex.
Qed.

Lemma proxy_round_trip_witness :
  (is_ok (outcome (process_proxy_command ref_world "mallory"
                     (compose_proxy_command ref_world "bob" 5%nat tt " balance ")
                     ref_ledger)) = true <->
   In 5%nat [3%nat; 5%nat]) /\
  (is_ok (outcome (process_proxy_command ref_world "mallory"
                     (compose_proxy_command ref_world "bob" 7%nat tt " balance ")
                     ref_ledger)) = true <->
   In 7%nat [3%nat; 5%nat]).
Proof.
  split.
  - refine (proj1 (proj2 (proxy_round_trip ref_world ref_ledger "mallory" "bob"
                            " balance " 5%nat tt eq_refl eq_refl eq_refl eq_refl _))).
    intros k [<-|[<-|[]]]; split; (reflexivity || discriminate).
  - refine (proj1 (proj2 (proxy_round_trip ref_world ref_ledger "mallory" "bob"
                            " balance " 7%nat tt eq_refl eq_refl eq_refl eq_refl _))).
    intros k [<-|[<-|[]]]; split; (reflexivity || discriminate).
Defined.

(** C1, as the specification words it, fails for an account whose name is
    not a single token: key 7 is registered for the account "a b" and
    verifies the composed signature over the very text that is sent, and
    the envelope is turned down as badly formatted. *)
Lemma round_trip_fails_for_spaced_name :
  has_account ref_world ref_spaced "a b" = true /\
  In (public_key ref_world 7%nat)
     (list_public_keys ref_world ref_spaced (get_account ref_world ref_spaced "a b")) /\
  dss_verify ref_world 7%nat (SHA3_512 (strip "balance"))
    (dss_sign ref_world 7%nat tt (SHA3_512 (strip "balance"))) = true /\
  compose_proxy_command ref_world "a b" 7%nat tt "balance" =
    "proxy dsa a b B2JhbGFuY2U=" ++ nl ++ "balance" /\
  process_proxy_command ref_world "mallory"
    (compose_proxy_command ref_world "a b" 7%nat tt "balance") ref_spaced =
  mkRun (Raise (CommandException invalid_formatting_text)) ref_spaced [].
Proof.
  split; [reflexivity|]. split; [left; reflexivity|]. split; [reflexivity|].
  split; reflexivity.
Qed.

(** * Further properties of the handlers *)

(** ** Dispatch *)

Lemma try_except_ok (w : World) (A : Type) (m : M w A) (h : string -> M w A)
    (s s' : State w) (a : A) (c : list (call w)) :
  m s = mkRun (Ok a) s' c -> try_except m h s = mkRun (Ok a) s' c.
Proof. intros H. rewrite try_except_run, H. reflexivity. Qed.

Lemma try_except_caught (w : World) (m : M w string) (s s' : State w)
    (text : string) (c : list (call w)) :
  m s = mkRun (Raise (CommandException text)) s' c ->
  try_except m (fun text => ret text) s = mkRun (Ok text) s' c.
Proof.
  intros H. rewrite try_except_run, H. step.
  now rewrite ret_run, after_run, List.app_nil_r.
Qed.

Lemma is_authorized_true (w : World) (s : State w) (author : string)
    (lvl : Authorization) :
  is_authorized w s author lvl = true ->
  has_account w s author = true /\
  (value (get_authorization w s (get_account w s author)) <? value lvl)%Z = false.
Proof.
  unfold is_authorized. intros H. apply andb_true_iff in H.
  destruct H as [Ha Hl]. split; [exact Ha|].
  apply Z.leb_le in Hl. apply Z.ltb_ge. exact Hl.
Qed.

Lemma assert_authorized_ok (w : World) (s : State w) (author : string)
    (lvl : Authorization) :
  is_authorized w s author lvl = true ->
  assert_authorized w author lvl s =
  mkRun (Ok (get_account w s author)) s (auth_calls w s author).
Proof.
  intros H. destruct (is_authorized_true w s author lvl H) as [Ha Hl].
  rewrite assert_authorized_run, Ha. cbv zeta. now rewrite Hl.
Qed.

(** A command without a minimum level goes straight to its handler. *)
Lemma dispatch_ungated (w : World) (s : State w) (author message first : string)
    (rest : list string) (cmd : command_entry) :
  split message = first :: rest ->
  getitem COMMANDS first = Some cmd ->
  min_level cmd = None ->
  process_command w author message s =
  try_except
    (call_handler w (process_command_depth w (String.length message))
       (handler_of cmd) author message)
    (fun text => ret text) s.
Proof.
  intros Hsplit Hget Hmin. rewrite process_command_unfold.
  unfold process_command_body. rewrite Hsplit, Hget, Hmin.
  rewrite !try_except_run, bind_run, ret_run. step. now rewrite after_nil.
Qed.

(** A gated command reaches its handler after the three lookups of the
    gate, when the author is authorized. *)
Lemma dispatch_gated (w : World) (s : State w) (author message first : string)
    (rest : list string) (cmd : command_entry) (lvl : Authorization) :
  split message = first :: rest ->
  getitem COMMANDS first = Some cmd ->
  min_level cmd = Some lvl ->
  (value lvl > value CITIZEN)%Z ->
  is_authorized w s author lvl = true ->
  process_command w author message s =
  after (auth_calls w s author)
    (try_except
       (call_handler w (process_command_depth w (String.length message))
          (handler_of cmd) author message)
       (fun text => ret text) s).
Proof.
  intros Hsplit Hget Hmin Hlvl Hauth.
  assert (Hgate : (value lvl >? value CITIZEN)%Z = true)
    by (apply Z.gtb_lt; lia).
  rewrite process_command_unfold. unfold process_command_body.
  rewrite Hsplit, Hget, Hmin, Hgate.
  rewrite !try_except_run, bind_run, bind_run, (assert_authorized_ok _ _ _ _ Hauth).
  step. rewrite ret_run, after_run. step. rewrite List.app_nil_r.
  destruct (call_handler w _ (handler_of cmd) author message s)
    as [[reply|[text| |]] s' c]; reflexivity.
Qed.

(** ** Who may run a gated command *)

(** X1.  [assert_authorized] succeeds exactly for an existing account whose
    level is at least the required one; it then returns the account after
    three lookups.  So a level that is enough for a command is enough for
    every command that requires less, and the server is never changed. *)
Theorem assert_authorized_exactly (w : World) (s : State w)
    (account_name : string) (required : Authorization) :
  (is_ok (outcome (assert_authorized w account_name required s)) = true <->
   has_account w s account_name = true /\
   (value required <= value (get_authorization w s (get_account w s account_name)))%Z) /\
  final (assert_authorized w account_name required s) = s /\
  (forall weaker,
     (value weaker <= value required)%Z ->
     is_ok (outcome (assert_authorized w account_name required s)) = true ->
     assert_authorized w account_name weaker s =
     mkRun (Ok (get_account w s account_name)) s (auth_calls w s account_name)).
Proof.
  assert (Hiff : is_ok (outcome (assert_authorized w account_name required s)) = true <->
    has_account w s account_name = true /\
    (value required <= value (get_authorization w s (get_account w s account_name)))%Z).
  { rewrite assert_authorized_run.
    destruct (has_account w s account_name); cbv zeta.
    - destruct (Z.ltb_spec (value (get_authorization w s (get_account w s account_name)))
                           (value required)); step.
      + split; [discriminate|]. intros [_ H']. lia.
      + split; [intros _; split; [reflexivity|lia]|reflexivity].
    - step. split; [discriminate|]. intros [H' _]. discriminate. }
  split; [exact Hiff|]. split.
  - rewrite assert_authorized_run.
    destruct (has_account w s account_name); cbv zeta; [|reflexivity].
    destruct (_ <? _)%Z; reflexivity.
  - intros weaker Hle Hok. apply Hiff in Hok. destruct Hok as [Ha Hl].
    apply assert_authorized_ok. unfold is_authorized. rewrite Ha.
    apply Z.leb_le. lia.
Qed.

Lemma assert_authorized_exactly_witness :
  assert_authorized ref_world "alice" CITIZEN ref_ledger =
  mkRun (Ok (get_account ref_world ref_ledger "alice")) ref_ledger
        (auth_calls ref_world ref_ledger "alice").
Proof.
  destruct (assert_authorized_exactly ref_world ref_ledger "alice" ADMIN)
    as [_ [_ H]].
  apply H; [vm_compute; discriminate|reflexivity].
Defined.

Lemma dispatch_to (w : World) (s : State w) (author message first : string)
    (rest : list string) (h : handler) :
  split message = first :: rest ->
  option_map (fun cmd => (handler_of cmd, min_level cmd)) (getitem COMMANDS first)
    = Some (h, None) ->
  process_command w author message s =
  try_except
    (call_handler w (process_command_depth w (String.length message)) h
       author message)
    (fun text => ret text) s.
Proof.
  intros Hsplit Hget.
  destruct (getitem COMMANDS first) as [cmd|] eqn:E; [|discriminate].
  cbn [option_map] in Hget. injection Hget as Hh Hmin.
  rewrite (dispatch_ungated w s author message first rest cmd Hsplit E Hmin).
  now rewrite Hh.
Qed.

Lemma dispatch_admin_to (w : World) (s : State w) (author message first : string)
    (rest : list string) (h : handler) :
  split message = first :: rest ->
  option_map (fun cmd => (handler_of cmd, min_level cmd)) (getitem COMMANDS first)
    = Some (h, Some ADMIN) ->
  is_authorized w s author ADMIN = true ->
  process_command w author message s =
  after (auth_calls w s author)
    (try_except
       (call_handler w (process_command_depth w (String.length message)) h
          author message)
       (fun text => ret text) s).
Proof.
  intros Hsplit Hget Hauth.
  destruct (getitem COMMANDS first) as [cmd|] eqn:E; [|discriminate].
  cbn [option_map] in Hget. injection Hget as Hh Hmin.
  rewrite (dispatch_gated w s author message first rest cmd ADMIN Hsplit E Hmin
             ltac:(cbn; lia) Hauth).
  now rewrite Hh.
Qed.

(** ** Opening an account *)

(** X2.  [open] opens an account for the author exactly when the author
    has none: one existence check, then one [open_account] in that case
    and none otherwise.  Whatever follows the command word is ignored, and
    no authorization is asked for. *)
Theorem open_opens_once (w : World) (s : State w) (author message : string)
    (rest : list string) :
  split message = "open" :: rest ->
  process_command w author message s =
  if has_account w s author then
    mkRun (Ok ("Hi there " ++ author ++
               ". Looks like you already have an account. No need to open another one."))
          s [HasAccount author]
  else
    mkRun (Ok ("Hi there " ++ author ++
               ". Your account has been opened successfully. Thank you for your business."))
          (open_account w s author) [HasAccount author; OpenAccount author].
Proof.
  intros Hsplit.
  rewrite (dispatch_to w s author message "open" rest h_process_open_account
             Hsplit eq_refl).
  cbn [call_handler]. unfold process_open_account. unfold_server.
  destruct (has_account w s author) eqn:Ha.
  - apply try_except_ok. rewrite bind_run, query_run. step. rewrite Ha.
    now rewrite ret_run, after_run.
  - apply try_except_ok. rewrite bind_run, query_run. step. rewrite Ha.
    rewrite bind_run, command_run. step. now rewrite ret_run, !after_run.
Qed.

Lemma open_opens_once_witness :
  final (process_command ref_world "carol" "open" ref_ledger) =
    open_account ref_world ref_ledger "carol" /\
  final (process_command ref_world "bob" "open an account please" ref_ledger) =
    ref_ledger.
Proof.
  split.
  - rewrite (open_opens_once ref_world ref_ledger "carol" "open" [] eq_refl).
    reflexivity.
  - rewrite (open_opens_once ref_world ref_ledger "bob" "open an account please"
               ["an"; "account"; "please"] eq_refl).
    reflexivity.
Defined.

(** ** Balance *)

(** X3.  [balance] reads and never writes: for an author without an
    account it makes one existence check and says so; otherwise it fetches
    the account, its balance and its level, and the reply carries the level
    in lower case, the author and the balance. *)
Theorem balance_reads_only (w : World) (s : State w) (author message : string)
    (rest : list string) :
  split message = "balance" :: rest ->
  process_command w author message s =
  if has_account w s author then
    let account := get_account w s author in
    mkRun (Ok ("Hi there " ++ lower_name (get_authorization w s account) ++ " " ++
               author ++ ". The balance on your account is " ++
               get_balance w s account ++ ". Have a great day."))
          s [HasAccount author; GetAccount author; GetBalance account;
             GetAuthorization account]
  else
    mkRun (Ok ("Hi there " ++ author ++
               ". I can't tell you what the balance on your account is because you don't have an account yet. " ++
               "You can open one with the `open` command."))
          s [HasAccount author].
Proof.
  intros Hsplit.
  rewrite (dispatch_to w s author message "balance" rest h_process_balance
             Hsplit eq_refl).
  cbn [call_handler]. unfold process_balance. unfold_server.
  destruct (has_account w s author) eqn:Ha; cbv zeta.
  - apply try_except_ok. rewrite bind_run, query_run. step. rewrite Ha. step.
    rewrite bind_run, query_run. step. rewrite bind_run, query_run. step.
    rewrite bind_run, query_run. step.
    rewrite ret_run, !after_run. step.
    rewrite !string_app_assoc. reflexivity.
  - apply try_except_ok. rewrite bind_run, query_run. step. rewrite Ha. step.
    now rewrite ret_run, after_run.
Qed.

Lemma balance_reads_only_witness :
  process_command ref_world "bob" "balance" ref_ledger =
  mkRun (Ok "Hi there citizen bob. The balance on your account is 20. Have a great day.")
        ref_ledger
        [HasAccount "bob"; GetAccount "bob"; @GetBalance ref_world "bob";
         @GetAuthorization ref_world "bob"].
Proof.
  rewrite (balance_reads_only ref_world ref_ledger "bob" "balance" [] eq_refl).
  reflexivity.
Defined.

(** ** Help, empty messages and unknown commands *)

Lemma list_commands_as_markdown_run (w : World) (author : string) (s : State w) :
  list_commands_as_markdown w author s =
  mkRun (Ok (listing_markdown (caller_level w s author))) s
        (listing_calls w s author (sorted (keys COMMANDS))).
Proof.
  unfold list_commands_as_markdown. rewrite bind_run, list_commands_run. step.
  now rewrite ret_run, after_run, List.app_nil_r.
Qed.

(** X4.  A message without any token, a message whose first token is no
    command, and [help] are all answered with the listing made for the
    author's level (the lowest one for an author without an account), and
    leave the server as it was; the unknown token is quoted back. *)
Theorem listing_replies (w : World) (s : State w) (author message : string) :
  let listing := listing_markdown (caller_level w s author) in
  let lookups := listing_calls w s author (sorted (keys COMMANDS)) in
  (split message = [] ->
   process_command w author message s =
   mkRun (Ok ("Hi " ++ author ++
              "! You sent me an empty message. Here's a list of commands I do understand:" ++
              nl ++ nl ++ listing)) s lookups) /\
  (forall first rest,
     split message = first :: rest -> getitem COMMANDS first = None ->
     process_command w author message s =
     mkRun (Ok ("Hi " ++ author ++
                "! I didn't quite understand command your command `" ++ first ++
                "`. Here's a list of commands I do understand:" ++ nl ++ nl ++ listing))
           s lookups) /\
  (forall rest,
     split message = "help" :: rest ->
     process_command w author message s =
     mkRun (Ok (nl ++ "Hi " ++ author ++
                "! Here's a list of the commands I understand:" ++ nl ++ nl ++ listing))
           s lookups).
Proof.
  cbv zeta. split; [|split].
  - intros Hsplit. rewrite process_command_unfold. unfold process_command_body.
    rewrite Hsplit, bind_run, list_commands_as_markdown_run. step.
    now rewrite ret_run, after_run, List.app_nil_r.
  - intros first rest Hsplit Hget. rewrite process_command_unfold.
    unfold process_command_body.
    rewrite Hsplit, Hget, bind_run, list_commands_as_markdown_run. step.
    now rewrite ret_run, after_run, List.app_nil_r.
  - intros rest Hsplit.
    rewrite (dispatch_to w s author message "help" rest h_process_help
               Hsplit eq_refl).
    cbn [call_handler]. apply try_except_ok. unfold process_help.
    rewrite bind_run, list_commands_as_markdown_run. step.
    now rewrite ret_run, after_run, List.app_nil_r.
Qed.

Lemma listing_replies_witness :
  final (process_command ref_world "mallory" (" " ++ nl) ref_ledger) = ref_ledger /\
  final (process_command ref_world "mallory" "withdraw 5" ref_ledger) = ref_ledger /\
  final (process_command ref_world "alice" "help me" ref_ledger) = ref_ledger.
Proof.
  destruct (listing_replies ref_world ref_ledger "mallory" (" " ++ nl)) as [H1 _].
  destruct (listing_replies ref_world ref_ledger "mallory" "withdraw 5") as [_ [H2 _]].
  destruct (listing_replies ref_world ref_ledger "alice" "help me") as [_ [_ H3]].
  rewrite (H1 eq_refl), (H2 "withdraw" ["5"] eq_refl eq_refl), (H3 ["me"] eq_refl).
  repeat split.
Defined.

(** ** Transfers that cannot start *)

Lemma try_except_bind (w : World) (A : Type) (m : M w A) (k : A -> M w string)
    (s s' : State w) (a : A) (c : list (call w)) :
  m s = mkRun (Ok a) s' c ->
  try_except (bind m k) (fun text => ret text) s =
  after c (try_except (k a) (fun text => ret text) s').
Proof.
  intros H. rewrite !try_except_run, bind_run, H. step.
  destruct (k a s') as [[reply|[text| |]] s'' c']; unfold after; step;
    try reflexivity.
  rewrite !ret_run. step. now rewrite List.app_assoc.
Qed.

Lemma try_except_bind_caught (w : World) (A : Type) (m : M w A)
    (k : A -> M w string) (s s' : State w) (text : string) (c : list (call w)) :
  m s = mkRun (Raise (CommandException text)) s' c ->
  try_except (bind m k) (fun text => ret text) s = mkRun (Ok text) s' c.
Proof.
  intros H. apply try_except_caught. now rewrite bind_run, H.
Qed.

Lemma assert_is_account_ok (w : World) (s : State w) (account_name : string) :
  has_account w s account_name = true ->
  assert_is_account w account_name s =
  mkRun (Ok (get_account w s account_name)) s
        [HasAccount account_name; GetAccount account_name].
Proof. intros H. now rewrite assert_is_account_run, H. Qed.

Lemma assert_is_account_missing (w : World) (s : State w) (account_name : string) :
  has_account w s account_name = false ->
  assert_is_account w account_name s =
  mkRun (Raise (CommandException (no_account_text account_name))) s
        [HasAccount account_name].
Proof. intros H. now rewrite assert_is_account_run, H. Qed.

(** X5.  A [transfer] that cannot start changes nothing.  A message that
    does not parse is answered with the usage text before anything is
    looked up; a missing author or a missing beneficiary is reported by
    name, and neither [can_transfer] nor [transfer] is called. *)
Theorem transfer_refused_early (w : World) (s : State w)
    (author message : string) :
  (forall rest,
     split message = "transfer" :: rest -> parse_transfer_command message = None ->
     process_command w author message s =
     mkRun (Ok ("Transfer formatted incorrectly. Expected `transfer AMOUNT BENEFICIARY`, " ++
                "where AMOUNT is a positive integer and BENEFICIARY is a username."))
           s []) /\
  (forall amount_text destination_name amount,
     split message = ["transfer"; amount_text; destination_name] ->
     int amount_text = Some amount ->
     (has_account w s author = false ->
      process_command w author message s =
      mkRun (Ok (no_account_text author)) s [HasAccount author]) /\
     (has_account w s author = true ->
      has_account w s destination_name = false ->
      process_command w author message s =
      mkRun (Ok (no_account_text destination_name)) s
            [HasAccount author; GetAccount author; HasAccount author;
             GetAccount author; HasAccount destination_name])).
Proof.
  split.
  - intros rest Hsplit Hparse.
    rewrite (dispatch_to w s author message "transfer" rest h_process_transfer
               Hsplit eq_refl).
    cbn [call_handler]. unfold process_transfer. rewrite Hparse.
    now apply try_except_ok.
  - intros amount_text destination_name amount Hsplit Hint.
    assert (Hparse : parse_transfer_command message = Some (amount, destination_name)).
    { unfold parse_transfer_command. rewrite Hsplit.
      cbn [List.length Nat.eqb negb]. now rewrite Hint. }
    rewrite (dispatch_to w s author message "transfer" _ h_process_transfer
               Hsplit eq_refl).
    cbn [call_handler]. unfold process_transfer. rewrite Hparse.
    unfold perform_transfer. split.
    + intros Ha.
      now rewrite (try_except_bind_caught _ _ _ _ _ _ _ _
                     (assert_is_account_missing w s author Ha)).
    + intros Ha Hd.
      rewrite (try_except_bind _ _ _ _ _ _ _ _ (assert_is_account_ok w s author Ha)).
      rewrite (try_except_bind _ _ _ _ _ _ _ _ (assert_is_account_ok w s author Ha)).
      rewrite (try_except_bind_caught _ _ _ _ _ _ _ _
                 (assert_is_account_missing w s destination_name Hd)).
      now rewrite !after_run.
Qed.

Lemma transfer_refused_early_witness :
  process_command ref_world "bob" "transfer all alice" ref_ledger =
    mkRun (Ok ("Transfer formatted incorrectly. Expected `transfer AMOUNT BENEFICIARY`, " ++
               "where AMOUNT is a positive integer and BENEFICIARY is a username."))
          ref_ledger [] /\
  process_command ref_world "mallory" "transfer 5 alice" ref_ledger =
    mkRun (Ok (no_account_text "mallory")) ref_ledger [HasAccount "mallory"] /\
  process_command ref_world "bob" "transfer 5 carol" ref_ledger =
    mkRun (Ok (no_account_text "carol")) ref_ledger
          [HasAccount "bob"; GetAccount "bob"; HasAccount "bob"; GetAccount "bob";
           HasAccount "carol"].
Proof.
  split; [|split].
  - destruct (transfer_refused_early ref_world ref_ledger "bob" "transfer all alice")
      as [H _].
    apply (H ["all"; "alice"]); reflexivity.
  - destruct (transfer_refused_early ref_world ref_ledger "mallory" "transfer 5 alice")
      as [_ H].
    destruct (H "5" "alice" 5%Z eq_refl eq_refl) as [H' _].
    apply H'. reflexivity.
  - destruct (transfer_refused_early ref_world ref_ledger "bob" "transfer 5 carol")
      as [_ H].
    destruct (H "5" "carol" 5%Z eq_refl eq_refl) as [_ H'].
    apply H'; reflexivity.
Defined.

(** ** Administrator commands *)

(** X6.  [admin-transfer] by an authorized author moves money between the
    two accounts named in the message: the author's level is checked twice
    (by the gate and by the handler), the three parties are looked up,
    [can_transfer] is asked about the named sender, beneficiary and amount,
    and [transfer] follows with the author as the acting account, only
    after a positive answer. *)
Theorem admin_transfer_moves_named_accounts (w : World) (s : State w)
    (author message amount_text sender_name destination_name : string)
    (amount : Z) :
  split message = ["admin-transfer"; amount_text; sender_name; destination_name] ->
  int amount_text = Some amount ->
  is_authorized w s author ADMIN = true ->
  has_account w s sender_name = true ->
  has_account w s destination_name = true ->
  let admin := get_account w s author in
  let sender := get_account w s sender_name in
  let dest := get_account w s destination_name in
  let lookups :=
    (auth_calls w s author ++ auth_calls w s author ++
     [HasAccount author; GetAccount author;
      HasAccount sender_name; GetAccount sender_name;
      HasAccount destination_name; GetAccount destination_name;
      CanTransfer sender dest amount])%list in
  process_command w author message s =
  if can_transfer w s sender dest amount then
    mkRun (Ok ("Transfer performed successfully." ++
               match fst (transfer w s admin sender dest amount) with
               | Some p => " Proof: " ++ p ++ "."
               | None => ""
               end))
          (snd (transfer w s admin sender dest amount))
          (lookups ++ [DoTransfer admin sender dest amount])
  else mkRun (Ok "Sorry, but I can't perform that transfer.") s lookups.
Proof.
  intros Hsplit Hint Hauth Hs Hd. cbv zeta.
  destruct (is_authorized_true w s author ADMIN Hauth) as [Ha _].
  assert (Hparse : parse_admin_transfer_command message
                   = Some (sender_name, amount, destination_name)).
  { unfold parse_admin_transfer_command. rewrite Hsplit.
    cbn [List.length Nat.eqb negb]. now rewrite Hint. }
  rewrite (dispatch_admin_to w s author message "admin-transfer" _
             h_process_admin_transfer Hsplit eq_refl Hauth).
  cbn [call_handler]. unfold process_admin_transfer.
  rewrite (try_except_bind _ _ _ _ _ _ _ _ (assert_authorized_ok w s author ADMIN Hauth)).
  rewrite Hparse.
  pose proof (perform_transfer_run w s author sender_name destination_name amount
                Ha Hs Hd) as Hrun.
  cbv zeta in Hrun.
  destruct (can_transfer w s (get_account w s sender_name)
              (get_account w s destination_name) amount).
  - rewrite (try_except_ok _ _ _ _ _ _ _ _ Hrun). now rewrite !after_run.
  - rewrite (try_except_ok _ _ _ _ _ _ _ _ Hrun). now rewrite !after_run.
Qed.

Lemma admin_transfer_moves_named_accounts_witness :
  final (process_command ref_world "alice" "admin-transfer 5 bob alice" ref_ledger) =
  snd (transfer ref_world ref_ledger "alice" "bob" "alice" 5%Z).
Proof.
  rewrite (admin_transfer_moves_named_accounts ref_world ref_ledger "alice"
             "admin-transfer 5 bob alice" "5" "bob" "alice" 5%Z
             eq_refl eq_refl eq_refl eq_refl eq_refl).
  reflexivity.
Defined.

(** X7.  [print-money] by an authorized author: when the beneficiary
    exists, [print_money] is called once with the author's account, the
    beneficiary's account and the integer of the message, whatever its
    sign; when the beneficiary is missing or the message does not parse,
    the author is told so and the server is left as it was. *)
Theorem print_money_prints_the_amount (w : World) (s : State w)
    (author message : string) :
  is_authorized w s author ADMIN = true ->
  let admin := get_account w s author in
  let checked := (auth_calls w s author ++ auth_calls w s author)%list in
  (forall amount_text beneficiary amount,
     split message = ["print-money"; amount_text; beneficiary] ->
     int amount_text = Some amount ->
     process_command w author message s =
     if has_account w s beneficiary then
       mkRun (Ok "Money printed successfully.")
             (print_money w s admin (get_account w s beneficiary) amount)
             (checked ++ [HasAccount beneficiary; GetAccount beneficiary;
                          PrintMoney admin (get_account w s beneficiary) amount])
     else mkRun (Ok (no_account_text beneficiary)) s
                (checked ++ [HasAccount beneficiary])) /\
  (forall rest,
     split message = "print-money" :: rest -> parse_print_money message = None ->
     process_command w author message s =
     mkRun (Ok "Command formatted incorrectly. Expected format `print-money AMOUNT BENEFICIARY`.")
           s checked).
Proof.
  intros Hauth. cbv zeta. split.
  - intros amount_text beneficiary amount Hsplit Hint.
    assert (Hparse : parse_print_money message = Some (amount, beneficiary)).
    { unfold parse_print_money. rewrite Hsplit.
      cbn [List.length Nat.eqb negb]. now rewrite Hint. }
    rewrite (dispatch_admin_to w s author message "print-money" _
               h_process_print_money Hsplit eq_refl Hauth).
    cbn [call_handler]. unfold process_print_money.
    rewrite (try_except_bind _ _ _ _ _ _ _ _ (assert_authorized_ok w s author ADMIN Hauth)).
    rewrite Hparse.
    destruct (has_account w s beneficiary) eqn:Hb.
    + rewrite (try_except_bind _ _ _ _ _ _ _ _ (assert_is_account_ok w s beneficiary Hb)).
      unfold server_print_money.
      rewrite (try_except_bind _ _ _ _ _ _ _ _ (command_run _ _ _ _ _)).
      rewrite (try_except_ok _ _ _ _ _ _ _ _ (ret_run _ _ _ _)).
      now rewrite !after_run.
    + rewrite (try_except_bind_caught _ _ _ _ _ _ _ _
                 (assert_is_account_missing w s beneficiary Hb)).
      now rewrite !after_run.
  - intros rest Hsplit Hparse.
    rewrite (dispatch_admin_to w s author message "print-money" _
               h_process_print_money Hsplit eq_refl Hauth).
    cbn [call_handler]. unfold process_print_money.
    rewrite (try_except_bind _ _ _ _ _ _ _ _ (assert_authorized_ok w s author ADMIN Hauth)).
    rewrite Hparse.
    rewrite (try_except_caught _ _ _ _ _ _ (raise_run _ _ _ _)).
    now rewrite !after_run, List.app_nil_r.
Qed.

Lemma print_money_prints_the_amount_witness :
  final (process_command ref_world "alice" "print-money -30 bob" ref_ledger) =
  print_money ref_world ref_ledger "alice" "bob" (-30)%Z.
Proof.
  destruct (print_money_prints_the_amount ref_world ref_ledger "alice"
              "print-money -30 bob" eq_refl) as [H _].
  rewrite (H "-30" "bob" (-30)%Z eq_refl eq_refl). reflexivity.
Defined.

(** X8.  [authorize] by an authorized author sets the level named in the
    message, in any mix of upper and lower case, on an existing
    beneficiary: one [authorize] call with the author's account, the
    beneficiary's account and that level.  The level granted is not compared
    with the author's own, and the beneficiary may be the author.  An
    unknown role or a missing beneficiary changes nothing. *)
Theorem authorize_sets_the_named_level (w : World) (s : State w)
    (author message beneficiary role : string) :
  is_authorized w s author ADMIN = true ->
  split message = ["authorize"; beneficiary; role] ->
  let admin := get_account w s author in
  let checked := (auth_calls w s author ++ auth_calls w s author)%list in
  process_command w author message s =
  match Authorization_getitem (upper role) with
  | Some lvl =>
      if has_account w s beneficiary then
        mkRun (Ok (beneficiary ++ " now has authorization level " ++ name lvl ++ "."))
              (authorize w s admin (get_account w s beneficiary) lvl)
              (checked ++ [HasAccount beneficiary; GetAccount beneficiary;
                           Authorize admin (get_account w s beneficiary) lvl])
      else mkRun (Ok (no_account_text beneficiary)) s
                 (checked ++ [HasAccount beneficiary])
  | None =>
      mkRun (Ok "Authorization formatted incorrectly. The right format is `authorize BENEFICIARY citizen|admin|developer`.")
            s checked
  end.
Proof.
  intros Hauth Hsplit. cbv zeta.
  rewrite (dispatch_admin_to w s author message "authorize" _
             h_process_authorization Hsplit eq_refl Hauth).
  cbn [call_handler]. unfold process_authorization.
  rewrite (try_except_bind _ _ _ _ _ _ _ _ (assert_authorized_ok w s author ADMIN Hauth)).
  unfold parse_authorization. rewrite Hsplit. cbn [List.length Nat.eqb negb].
  destruct (Authorization_getitem (upper role)) as [lvl|].
  - destruct (has_account w s beneficiary) eqn:Hb.
    + rewrite (try_except_bind _ _ _ _ _ _ _ _ (assert_is_account_ok w s beneficiary Hb)).
      unfold server_authorize.
      rewrite (try_except_bind _ _ _ _ _ _ _ _ (command_run _ _ _ _ _)).
      rewrite (try_except_ok _ _ _ _ _ _ _ _ (ret_run _ _ _ _)).
      now rewrite !after_run.
    + rewrite (try_except_bind_caught _ _ _ _ _ _ _ _
                 (assert_is_account_missing w s beneficiary Hb)).
      now rewrite !after_run.
  - rewrite (try_except_caught _ _ _ _ _ _ (raise_run _ _ _ _)).
    now rewrite !after_run, List.app_nil_r.
Qed.

Lemma authorize_sets_the_named_level_witness :
  process_command ref_world "alice" "authorize alice Developer" ref_ledger =
  mkRun (Ok "alice now has authorization level DEVELOPER.")
        (authorize ref_world ref_ledger "alice" "alice" DEVELOPER)
        (auth_calls ref_world ref_ledger "alice" ++
         auth_calls ref_world ref_ledger "alice" ++
         [HasAccount "alice"; GetAccount "alice";
          @Authorize ref_world "alice" "alice" DEVELOPER]).
Proof.
  rewrite (authorize_sets_the_named_level ref_world ref_ledger "alice"
             "authorize alice Developer" "alice" "Developer" eq_refl eq_refl).
  reflexivity.
Defined.

(** X9.  [admin-create-recurring-transfer] by an authorized author, with
    an integer amount per tick, an integer tick count and existing sender
    and beneficiary, asks the server for one recurring transfer of
    amount-per-tick times tick-count in total over that many ticks, with
    the author as the acting account, and quotes the identifier it gets. *)
Theorem recurring_transfer_totals_the_ticks (w : World) (s : State w)
    (author message amount_text sender_name destination_name tick_count_text : string)
    (amount tick_count : Z) :
  is_authorized w s author ADMIN = true ->
  split message = ["admin-create-recurring-transfer"; amount_text; sender_name;
                   destination_name; tick_count_text] ->
  int amount_text = Some amount ->
  int tick_count_text = Some tick_count ->
  has_account w s sender_name = true ->
  has_account w s destination_name = true ->
  let admin := get_account w s author in
  let sender := get_account w s sender_name in
  let dest := get_account w s destination_name in
  let created :=
    create_recurring_transfer w s admin sender dest (amount * tick_count) tick_count in
  process_command w author message s =
  mkRun (Ok ("Recurring transfer set up with ID `" ++ fst created ++ "`."))
        (snd created)
        (auth_calls w s author ++ auth_calls w s author ++
         [HasAccount author; GetAccount author;
          HasAccount sender_name; GetAccount sender_name;
          HasAccount destination_name; GetAccount destination_name;
          CreateRecurringTransfer admin sender dest (amount * tick_count) tick_count]).
Proof.
  intros Hauth Hsplit Hint Htick Hs Hd. cbv zeta.
  destruct (is_authorized_true w s author ADMIN Hauth) as [Ha _].
  assert (Hparse : parse_admin_create_recurring_transfer message
                   = Some (amount, sender_name, destination_name, tick_count)).
  { unfold parse_admin_create_recurring_transfer. rewrite Hsplit.
    cbn [List.length Nat.eqb negb]. now rewrite Hint, Htick. }
  rewrite (dispatch_admin_to w s author message "admin-create-recurring-transfer" _
             h_process_admin_create_recurring_transfer Hsplit eq_refl Hauth).
  cbn [call_handler]. unfold process_admin_create_recurring_transfer.
  rewrite (try_except_bind _ _ _ _ _ _ _ _ (assert_authorized_ok w s author ADMIN Hauth)).
  rewrite Hparse.
  rewrite (try_except_bind _ _ _ _ _ _ _ _ (assert_is_account_ok w s author Ha)).
  rewrite (try_except_bind _ _ _ _ _ _ _ _ (assert_is_account_ok w s sender_name Hs)).
  rewrite (try_except_bind _ _ _ _ _ _ _ _ (assert_is_account_ok w s destination_name Hd)).
  unfold server_create_recurring_transfer.
  rewrite (try_except_bind _ _ _ _ _ _ _ _ (command_run _ _ _ _ _)).
  rewrite (try_except_ok _ _ _ _ _ _ _ _ (ret_run _ _ _ _)).
  now rewrite !after_run.
Qed.

Lemma recurring_transfer_totals_the_ticks_witness :
  calls (process_command ref_world "alice"
           "admin-create-recurring-transfer 4 alice bob 6" ref_ledger) =
  (auth_calls ref_world ref_ledger "alice" ++ auth_calls ref_world ref_ledger "alice" ++
   [HasAccount "alice"; GetAccount "alice"; HasAccount "alice"; GetAccount "alice";
    HasAccount "bob"; GetAccount "bob";
    @CreateRecurringTransfer ref_world "alice" "alice" "bob" 24%Z 6%Z])%list.
Proof.
  rewrite (recurring_transfer_totals_the_ticks ref_world ref_ledger "alice"
             "admin-create-recurring-transfer 4 alice bob 6" "4" "alice" "bob" "6"
             4%Z 6%Z eq_refl eq_refl eq_refl eq_refl eq_refl eq_refl).
  reflexivity.
Defined.

(** X10.  [admin-open] by an authorized author opens the named account
    when it does not exist yet, with one [open_account] call; an existing
    name, or a message that is not the command word and one name, is
    refused and nothing is opened. *)
Theorem admin_open_opens_new_names_only (w : World) (s : State w)
    (author message : string) :
  is_authorized w s author ADMIN = true ->
  let checked := (auth_calls w s author ++ auth_calls w s author)%list in
  (forall account_name,
     split message = ["admin-open"; account_name] ->
     process_command w author message s =
     if has_account w s account_name then
       mkRun (Ok ("Account `" ++ account_name ++ "` already exists.")) s
             (checked ++ [HasAccount account_name])
     else
       mkRun (Ok ("Account `" ++ account_name ++ "` has been opened successfully."))
             (open_account w s account_name)
             (checked ++ [HasAccount account_name; OpenAccount account_name])) /\
  (forall rest,
     split message = "admin-open" :: rest -> List.length rest <> 1%nat ->
     process_command w author message s =
     mkRun (Ok ("Incorrectly formatted command; expected `admin-open ACCOUNT_NAME`, " ++
                "where `ACCOUNT_NAME` is the name of the account to create."))
           s checked).
Proof.
  intros Hauth. cbv zeta. split.
  - intros account_name Hsplit.
    rewrite (dispatch_admin_to w s author message "admin-open" _
               h_process_admin_open_account Hsplit eq_refl Hauth).
    cbn [call_handler]. unfold process_admin_open_account.
    rewrite (try_except_bind _ _ _ _ _ _ _ _ (assert_authorized_ok w s author ADMIN Hauth)).
    rewrite Hsplit. unfold server_has_account, server_open_account.
    rewrite (try_except_bind _ _ _ _ _ _ _ _ (query_run _ _ _ _ _)).
    destruct (has_account w s account_name).
    + rewrite (try_except_caught _ _ _ _ _ _ (raise_run _ _ _ _)).
      now rewrite !after_run.
    + rewrite (try_except_bind _ _ _ _ _ _ _ _ (command_run _ _ _ _ _)).
      rewrite (try_except_ok _ _ _ _ _ _ _ _ (ret_run _ _ _ _)).
      now rewrite !after_run.
  - intros rest Hsplit Hlen.
    rewrite (dispatch_admin_to w s author message "admin-open" _
               h_process_admin_open_account Hsplit eq_refl Hauth).
    cbn [call_handler]. unfold process_admin_open_account.
    rewrite (try_except_bind _ _ _ _ _ _ _ _ (assert_authorized_ok w s author ADMIN Hauth)).
    rewrite Hsplit.
    destruct rest as [|x [|y rest']]; [| now contradiction Hlen |];
      rewrite (try_except_caught _ _ _ _ _ _ (raise_run _ _ _ _));
      now rewrite !after_run, List.app_nil_r.
Qed.

Lemma admin_open_opens_new_names_only_witness :
  final (process_command ref_world "alice" "admin-open carol" ref_ledger) =
    open_account ref_world ref_ledger "carol" /\
  final (process_command ref_world "alice" "admin-open bob" ref_ledger) = ref_ledger /\
  final (process_command ref_world "alice" "admin-open carol dave" ref_ledger) =
    ref_ledger.
Proof.
  destruct (admin_open_opens_new_names_only ref_world ref_ledger "alice"
              "admin-open carol" eq_refl) as [H1 _].
  destruct (admin_open_opens_new_names_only ref_world ref_ledger "alice"
              "admin-open bob" eq_refl) as [H2 _].
  destruct (admin_open_opens_new_names_only ref_world ref_ledger "alice"
              "admin-open carol dave" eq_refl) as [_ H3].
  rewrite (H1 "carol" eq_refl), (H2 "bob" eq_refl).
  rewrite (H3 ["carol"; "dave"] eq_refl ltac:(cbn; lia)).
  repeat split.
Defined.

(** ** Listing the accounts *)

Lemma account_rows_run (w : World) (s : State w) (accounts : list (Account w)) :
  for_each (fun account =>
              id <- server_get_account_id w account ;;
              balance <- account_get_balance w account ;;
              ret ("| " ++ id ++ " | " ++ balance ++ " |")) accounts s =
  mkRun (Ok (map (account_row w s) accounts)) s
        (flat_map (account_row_calls w) accounts).
Proof.
  unfold server_get_account_id, account_get_balance.
  induction accounts as [|a rest IH]; [reflexivity|].
  cbn [for_each map flat_map].
  rewrite bind_run, bind_run, query_run. step.
  rewrite bind_run, query_run. step. rewrite ret_run, !after_run. step.
  rewrite bind_run, IH. step. rewrite ret_run, !after_run.
  rewrite !List.app_nil_r. reflexivity.
Qed.

(** X11.  [list] by an authorized author returns a table with the two
    header lines and one row per account, in the order the server lists
    them, each row made of the account's identifier and balance.  It reads
    the accounts once and each identifier and balance once, and writes
    nothing. *)
Theorem list_tabulates_every_account (w : World) (s : State w)
    (author message : string) (rest : list string) :
  is_authorized w s author ADMIN = true ->
  split message = "list" :: rest ->
  process_command w author message s =
  mkRun (Ok (join nl (["| Account | Balance |"; "| --- | --- |"] ++
                      map (account_row w s) (list_accounts w s))))
        s
        (auth_calls w s author ++ [ListAccounts] ++
         flat_map (account_row_calls w) (list_accounts w s)).
Proof.
  intros Hauth Hsplit.
  rewrite (dispatch_admin_to w s author message "list" rest
             h_process_list_accounts Hsplit eq_refl Hauth).
  cbn [call_handler]. unfold process_list_accounts. unfold server_list_accounts.
  rewrite (try_except_bind _ _ _ _ _ _ _ _ (query_run _ _ _ _ _)).
  rewrite (try_except_bind _ _ _ _ _ _ _ _ (account_rows_run w s _)).
  rewrite (try_except_ok _ _ _ _ _ _ _ _ (ret_run _ _ _ _)).
  now rewrite !after_run, List.app_nil_r.
Qed.

Lemma list_tabulates_every_account_witness :
  outcome (process_command ref_world "alice" "list" ref_ledger) =
  Ok ("| Account | Balance |" ++ nl ++ "| --- | --- |" ++ nl ++
      "| alice | 100 |" ++ nl ++ "| bob | 20 |").
Proof.
  rewrite (list_tabulates_every_account ref_world ref_ledger "alice" "list" []
             eq_refl eq_refl).
  reflexivity.
Defined.

(** ** Registering a public key *)

Lemma split_all_first_line (sep : ascii) (line body : string) :
  lacks sep line = true ->
  split_all sep (line ++ String sep body) = line :: split_all sep body.
Proof.
  induction line as [|c r IH]; cbn [append split_all lacks].
  - intros _. now rewrite Ascii.eqb_refl.
  - intros H. apply andb_true_iff in H. destruct H as [Hc Hr].
    apply negb_true_iff in Hc. rewrite Hc, (IH Hr). reflexivity.
Qed.

(** X12.  [add-public-key] takes as key text the lines after the first
    line of the message, without the empty and the all-whitespace ones.  An
    author without an account is told so; otherwise the text is shown,
    then imported: a key that imports is added to the author's account with
    one [add_public_key] call, and one that does not is reported with the
    importer's message, with nothing added. *)
Theorem add_public_key_adds_imported_keys (w : World) (s : State w)
    (author message : string) (rest : list string) :
  split message = "add-public-key" :: rest ->
  (forall line body,
     lacks "010" line = true ->
     pem_of (line ++ String "010" body) =
     join nl (filter (fun l => negb (String.eqb l "") && negb (isspace l))
                     (split_all "010" body))) /\
  process_command w author message s =
  if has_account w s author then
    let account := get_account w s author in
    let shown := [HasAccount author; GetAccount author; Print (pem_of message)] in
    match import_key w (pem_of message) with
    | inr key =>
        mkRun (Ok "Public key added successfully.")
              (add_public_key w s account key)
              (shown ++ [AddPublicKey account key])
    | inl e =>
        mkRun (Ok ("Incorrectly formatted key. Inner error message: " ++ e ++ "."))
              s shown
    end
  else mkRun (Ok (no_account_text author)) s [HasAccount author].
Proof.
  intros Hsplit. split.
  - intros line body Hline. unfold pem_of.
    now rewrite (split_all_first_line _ _ _ Hline).
  - rewrite (dispatch_to w s author message "add-public-key" rest
               h_process_add_public_key Hsplit eq_refl).
    cbn [call_handler]. unfold process_add_public_key. fold (pem_of message).
    cbv zeta.
    destruct (has_account w s author) eqn:Ha.
    + rewrite (try_except_bind _ _ _ _ _ _ _ _ (assert_is_account_ok w s author Ha)).
      unfold print, server_add_public_key.
      rewrite (try_except_bind _ _ _ _ _ _ _ _ (query_run _ _ _ _ _)).
      destruct (import_key w (pem_of message)) as [e|key].
      * rewrite (try_except_caught _ _ _ _ _ _ (raise_run _ _ _ _)).
        now rewrite !after_run.
      * rewrite (try_except_bind _ _ _ _ _ _ _ _ (command_run _ _ _ _ _)).
        rewrite (try_except_ok _ _ _ _ _ _ _ _ (ret_run _ _ _ _)).
        now rewrite !after_run.
    + now rewrite (try_except_bind_caught _ _ _ _ _ _ _ _
                     (assert_is_account_missing w s author Ha)).
Qed.

Lemma add_public_key_adds_imported_keys_witness :
  process_command ref_world "bob" ("add-public-key" ++ nl ++ nl ++ "11" ++ nl ++ " ")
    ref_ledger =
  mkRun (Ok "Public key added successfully.")
        (add_public_key ref_world ref_ledger "bob" 11%nat)
        [HasAccount "bob"; GetAccount "bob"; Print "11";
         @AddPublicKey ref_world "bob" 11%nat].
Proof.
  destruct (add_public_key_adds_imported_keys ref_world ref_ledger "bob"
              ("add-public-key" ++ nl ++ nl ++ "11" ++ nl ++ " ") [ "11" ] eq_refl)
    as [_ H].
  rewrite H. reflexivity.
Defined.

(** ** More on proxying *)

(** X13.  The decoder accepts exactly the messages made of a first line of
    four fields, of which the second is [dsa] and the fourth decodes as
    base64, followed by a newline; it returns the third field, the decoded
    signature and the rest of the message without its leading and trailing
    newlines and carriage returns.  The first field is not looked at, and
    spaces around the inner text are kept. *)
Theorem parse_proxy_command_accepts_exactly (w : World) (message : string)
    (account_name command : string) (signature : bytes) :
  parse_proxy_command w message = Ok (account_name, signature, command) <->
  exists proxy_line body marker enc_signature,
    split_once "010" message = [proxy_line; body] /\
    split proxy_line = [marker; "dsa"; account_name; enc_signature] /\
    b64decode w enc_signature = inr signature /\
    command = strip_chars is_newline_or_return body.
Proof.
  unfold parse_proxy_command, parse_impl. split.
  - destruct (split_once "010" message) as [|h [|b [|c l]]] eqn:Hs;
      try discriminate.
    destruct (split h) as [|t1 [|t2 [|t3 [|t4 [|t5 l]]]]] eqn:Hl;
      try discriminate.
    destruct (String.eqb_spec t2 "dsa") as [->|]; [|discriminate].
    cbn [negb].
    destruct (b64decode w t4) as [e|sg] eqn:E; [discriminate|].
    intros [= <- <- <-]. exists h, b, t1, t4.
    split; [reflexivity|]. split; [exact Hl|]. split; [exact E|reflexivity].
  - intros [proxy_line [body [marker [enc [Hs [Hl [Hb ->]]]]]]].
    rewrite Hs, Hl. cbn [String.eqb Ascii.eqb Bool.eqb negb]. now rewrite Hb.
Qed.

(** X14.  An envelope that names an account the server does not know is
    refused after the one existence check: no key is read, nothing is
    verified, and the dispatcher answers that the named account does not
    exist. *)
Theorem proxy_for_unknown_account (w : World) (s : State w)
    (author message account_name command : string) (signature : bytes) :
  parse_proxy_command w message = Ok (account_name, signature, command) ->
  has_account w s account_name = false ->
  process_proxy_command w author message s =
    mkRun (Raise (CommandException (no_account_text account_name))) s
          [HasAccount account_name] /\
  (forall rest, split message = "proxy" :: rest ->
     process_command w author message s =
     mkRun (Ok (no_account_text account_name)) s [HasAccount account_name]).
Proof.
  intros Hparse Hacc.
  assert (Hrun : process_proxy_command w author message s =
                 mkRun (Raise (CommandException (no_account_text account_name))) s
                       [HasAccount account_name]).
  { unfold process_proxy_command, process_proxy_command_with.
    rewrite bind_run. unfold lift. step. rewrite Hparse. step. rewrite after_nil.
    now rewrite bind_run, (assert_is_account_missing w s account_name Hacc). }
  split; [exact Hrun|].
  intros rest Hsplit.
  rewrite (process_command_proxy_equation w author message rest s Hsplit).
  now apply try_except_caught.
Qed.

Lemma proxy_for_unknown_account_witness :
  process_command ref_world "alice" ("proxy dsa carol TQ==" ++ nl ++ "balance")
    ref_ledger =
  mkRun (Ok (no_account_text "carol")) ref_ledger [HasAccount "carol"].
Proof.
  destruct (proxy_for_unknown_account ref_world ref_ledger "alice"
              ("proxy dsa carol TQ==" ++ nl ++ "balance") "carol" "balance" "M"
              eq_refl eq_refl) as [_ H].
  apply (H ["dsa"; "carol"; "TQ=="; "balance"]). reflexivity.
Defined.

Lemma try_except_replied (w : World) (m : M w string) (h : string -> M w string)
    (s : State w) :
  is_ok (outcome (m s)) = true -> try_except m h s = m s.
Proof.
  intros H. rewrite try_except_run.
  destruct (outcome (m s)); [reflexivity|discriminate].
Qed.

(** X15.  A verified envelope runs its inner command with the rights of
    the proxied account, not of the sender: when the inner command is gated
    and the proxied account's level is too low, the reply is the denial
    that names the proxied account, whoever sent the envelope, and the
    server is left as it was. *)
Theorem proxy_is_gated_as_the_proxied_account (w : World) (s : State w)
    (author message account_name command first : string) (rest : list string)
    (signature : bytes) (cmd : command_entry) (lvl : Authorization) :
  parse_proxy_command w message = Ok (account_name, signature, command) ->
  has_account w s account_name = true ->
  existsb (fun k => dss_verify w k (SHA3_512 command) signature)
          (list_public_keys w s (get_account w s account_name)) = true ->
  split command = first :: rest ->
  getitem COMMANDS first = Some cmd ->
  min_level cmd = Some lvl ->
  (value lvl > value CITIZEN)%Z ->
  (value (get_authorization w s (get_account w s account_name)) < value lvl)%Z ->
  process_proxy_command w author message s =
  mkRun (Ok (not_authorized_text account_name)) s
        (proxy_checks w s account_name command signature ++
         auth_calls w s account_name).
Proof.
  intros Hparse Hacc Hver Hsplit Hget Hmin Hlvl Hlow.
  unfold process_proxy_command.
  rewrite (process_proxy_command_with_run w _ author message _ _ _ s Hparse Hacc), Hver.
  assert (Hgate : (value lvl >? value CITIZEN)%Z = true)
    by (apply Z.gtb_lt; lia).
  rewrite process_command_unfold. unfold process_command_body.
  rewrite Hsplit, Hget, Hmin, Hgate.
  rewrite try_except_run, bind_run, bind_run, assert_authorized_run, Hacc.
  cbv zeta. apply Z.ltb_lt in Hlow. rewrite Hlow.
  step. now rewrite ret_run, !after_run.
Qed.

Lemma proxy_is_gated_as_the_proxied_account_witness :
  outcome (process_proxy_command ref_world "alice"
             (compose_proxy_command ref_world "bob" 3%nat tt "print-money 5 bob")
             ref_ledger) =
  Ok (not_authorized_text "bob").
Proof.
  rewrite (proxy_is_gated_as_the_proxied_account ref_world ref_ledger "alice"
             (compose_proxy_command ref_world "bob" 3%nat tt "print-money 5 bob")
             "bob" "print-money 5 bob" "print-money" ["5"; "bob"]
             (ref_sign 3 (SHA3_512 "print-money 5 bob"))
             (mkEntry "print-money AMOUNT BENEFICIARY"
                "generates AMOUNT money and deposits it in BENEFICIARY's account."
                h_process_print_money (Some ADMIN)) ADMIN
             eq_refl eq_refl eq_refl eq_refl eq_refl eq_refl eq_refl eq_refl).
  reflexivity.
Defined.

(** X16.  Envelopes nest: when a verified envelope for one account carries
    a verified envelope for a second account, the innermost command runs as
    the second account, after the checks of the two envelopes in turn.  The
    first account needs no tie to the second beyond having signed the
    inner envelope. *)
Theorem proxy_within_proxy (w : World) (s : State w)
    (author message outer_name inner_message inner_name command : string)
    (rest : list string) (outer_signature inner_signature : bytes) :
  parse_proxy_command w message = Ok (outer_name, outer_signature, inner_message) ->
  has_account w s outer_name = true ->
  existsb (fun k => dss_verify w k (SHA3_512 inner_message) outer_signature)
          (list_public_keys w s (get_account w s outer_name)) = true ->
  split inner_message = "proxy" :: rest ->
  parse_proxy_command w inner_message = Ok (inner_name, inner_signature, command) ->
  has_account w s inner_name = true ->
  existsb (fun k => dss_verify w k (SHA3_512 command) inner_signature)
          (list_public_keys w s (get_account w s inner_name)) = true ->
  process_proxy_command w author message s =
  after (proxy_checks w s outer_name inner_message outer_signature ++
         proxy_checks w s inner_name command inner_signature)
        (process_command w inner_name command s).
Proof.
  intros Hparse Hacc Hver Hsplit Hparse' Hacc' Hver'.
  unfold process_proxy_command at 1.
  rewrite (process_proxy_command_with_run w _ author message _ _ _ s Hparse Hacc), Hver.
  rewrite (process_command_proxy_equation w outer_name inner_message rest s Hsplit).
  assert (Hinner : process_proxy_command w outer_name inner_message s =
                   after (proxy_checks w s inner_name command inner_signature)
                         (process_command w inner_name command s)).
  { unfold process_proxy_command.
    now rewrite (process_proxy_command_with_run w _ outer_name inner_message _ _ _ s
                   Hparse' Hacc'), Hver'. }
  rewrite try_except_replied.
  - now rewrite Hinner, after_after.
  - rewrite Hinner. unfold after. step. apply process_command_replies.
Qed.

Lemma proxy_within_proxy_witness :
  outcome (process_proxy_command ref_world "mallory"
             (compose_proxy_command ref_world "alice" 7%nat tt
                (compose_proxy_command ref_world "bob" 5%nat tt "balance"))
             ref_ledger) =
  Ok "Hi there citizen bob. The balance on your account is 20. Have a great day.".
Proof.
  rewrite (proxy_within_proxy ref_world ref_ledger "mallory"
             (compose_proxy_command ref_world "alice" 7%nat tt
                (compose_proxy_command ref_world "bob" 5%nat tt "balance"))
             "alice" (compose_proxy_command ref_world "bob" 5%nat tt "balance")
             "bob" "balance"
             ["dsa"; "bob"; ref_b64encode (ref_sign 5 (SHA3_512 "balance")); "balance"]
             (ref_sign 7 (SHA3_512 (compose_proxy_command ref_world "bob" 5%nat tt "balance")))
             (ref_sign 5 (SHA3_512 "balance"))
             eq_refl eq_refl eq_refl eq_refl eq_refl eq_refl eq_refl).
  reflexivity.
Defined.


(** ** More on the parsers *)


Lemma split_join (tokens : list string) :
  Forall (fun t => is_token t = true) tokens -> split (join " " tokens) = tokens.
Proof.
  induction tokens as [|t rest IH]; intros H; [reflexivity|].
  inversion H as [|? ? Ht Hrest]; subst.
  destruct rest as [|u rest'].
  - cbn [join]. now apply split_token.
  - change (join " " (t :: u :: rest')) with (t ++ String " " (join " " (u :: rest'))).
    rewrite (split_token_then t (String " " _)) by (exact Ht || reflexivity).
    rewrite split_space by reflexivity. now rewrite (IH Hrest).
Qed.

Lemma is_token_str_of_int (z : Z) : is_token (str_of_int z) = true.
Proof.
  assert (H : forall u, u <> Decimal.Nil ->
                        is_token (NilEmpty.string_of_uint u) = true).
  { intros u Hu. pose proof (no_space_string_of_uint u) as Hn.
    destruct u; try congruence; exact Hn. }
  destruct z as [|p|p]; [reflexivity| |]; unfold str_of_int; cbn [Z.to_int];
    pose proof (DecimalPos.Unsigned.to_uint_nonnil p) as Hp;
    cbn [NilZero.string_of_int]; unfold NilZero.string_of_uint.
  - specialize (H _ Hp). destruct (Pos.to_uint p); try congruence; exact H.
  - specialize (H _ Hp).
    assert (Hn : no_space (NilEmpty.string_of_uint (Pos.to_uint p)) = true)
      by apply no_space_string_of_uint.
    destruct (Pos.to_uint p); try congruence; exact Hn.
Qed.

Lemma Authorization_getitem_name (key : string) (lvl : Authorization) :
  Authorization_getitem key = Some lvl <-> key = name lvl.
Proof.
  unfold Authorization_getitem. split.
  - destruct (String.eqb_spec key "CITIZEN") as [->|]; [now intros [= <-]|].
    destruct (String.eqb_spec key "ADMIN") as [->|]; [now intros [= <-]|].
    destruct (String.eqb_spec key "DEVELOPER") as [->|]; [now intros [= <-]|].
    discriminate.
  - intros ->. now destruct lvl.
Qed.




(** X19.  The usage lines parse back: a command word, the decimal numeral
    of any integer and any one-token names, joined by single spaces, give
    those very integers and names back, for transfer, admin-transfer,
    print-money and admin-create-recurring-transfer; and [authorize] with
    a level's name in lower or in upper case gives that level. *)
Theorem usage_lines_parse_back (z t : Z) (a b : string) (lvl : Authorization) :
  is_token a = true -> is_token b = true ->
  parse_transfer_command (join " " ["transfer"; str_of_int z; a]) = Some (z, a) /\
  parse_admin_transfer_command (join " " ["admin-transfer"; str_of_int z; a; b])
    = Some (a, z, b) /\
  parse_print_money (join " " ["print-money"; str_of_int z; a]) = Some (z, a) /\
  parse_admin_create_recurring_transfer
    (join " " ["admin-create-recurring-transfer"; str_of_int z; a; b; str_of_int t])
    = Some (z, a, b, t) /\
  parse_authorization (join " " ["authorize"; a; lower_name lvl]) = Some (a, lvl) /\
  parse_authorization (join " " ["authorize"; a; name lvl]) = Some (a, lvl).
Proof.
  intros Ha Hb.
  pose proof (is_token_str_of_int z) as Hz.
  pose proof (is_token_str_of_int t) as Ht.
  unfold parse_transfer_command, parse_admin_transfer_command, parse_print_money,
    parse_admin_create_recurring_transfer, parse_authorization.
  rewrite !split_join
    by (repeat (apply Forall_cons; [first [assumption | reflexivity | now destruct lvl]|]);
        apply Forall_nil).
  cbn [List.length Nat.eqb negb]. rewrite !int_str_of_int.
  repeat split; now destruct lvl.
Qed.

Lemma usage_lines_parse_back_witness :
  parse_transfer_command (join " " ["transfer"; str_of_int (-12); "bob"])
  = Some ((-12)%Z, "bob").
Proof.
  destruct (usage_lines_parse_back (-12) 0 "bob" "bob" CITIZEN eq_refl eq_refl)
    as [H _].
  exact H.
Defined.

(** X20.  [parse_authorization] accepts exactly the messages of three
    tokens whose last token, put in upper case, is the name of a level; it
    returns the second token and that level. *)
Theorem parse_authorization_accepts_exactly (m beneficiary : string)
    (lvl : Authorization) :
  parse_authorization m = Some (beneficiary, lvl) <->
  exists c role, split m = [c; beneficiary; role] /\ upper role = name lvl.
Proof.
  unfold parse_authorization. split.
  - destruct (split m) as [|t1 [|t2 [|t3 [|t4 l]]]]; try discriminate.
    cbn [List.length Nat.eqb negb].
    destruct (Authorization_getitem (upper t3)) as [l|] eqn:E; [|discriminate].
    intros [= <- <-]. exists t1, t3. split; [reflexivity|].
    now apply Authorization_getitem_name.
  - intros [c [role [-> Hrole]]]. cbn [List.length Nat.eqb negb].
    apply Authorization_getitem_name in Hrole. now rewrite Hrole.
Qed.

(** ** The registry *)



(** ** Whitespace *)

Lemma getitem_handler_name (first : string) (cmd : command_entry) :
  getitem COMMANDS first = Some cmd ->
  (handler_of cmd = h_process_proxy_command -> first = "proxy") /\
  (handler_of cmd = h_process_add_public_key -> first = "add-public-key").
Proof.
  unfold COMMANDS. cbn [getitem].
  repeat match goal with
         | |- context [String.eqb ?k first] =>
             destruct (String.eqb_spec k first) as [<-|_];
             [intros [= <-]; cbn [handler_of];
              split; intros; (discriminate || reflexivity)|]
         end.
  discriminate.
Qed.

(** X22.  Apart from [proxy] and [add-public-key], which read the lines of
    the message, a command is read through its tokens only: two messages
    with the same tokens get the same run, whatever the spaces, tabs and
    line breaks between them. *)
Theorem only_the_tokens_matter (w : World) (s : State w)
    (author message1 message2 : string) :
  split message1 = split message2 ->
  hd_error (split message1) <> Some "proxy" ->
  hd_error (split message1) <> Some "add-public-key" ->
  process_command w author message1 s = process_command w author message2 s.
Proof.
  intros Heq Hproxy Hkey.
  rewrite !process_command_unfold. unfold process_command_body.
  rewrite <- Heq.
  destruct (split message1) as [|first rest] eqn:E1; [reflexivity|].
  symmetry in Heq.
  destruct (getitem COMMANDS first) as [cmd|] eqn:G; [|reflexivity].
  destruct (getitem_handler_name first cmd G) as [Hp Hk].
  rewrite !try_except_run.
  assert (E : forall gate : M w unit,
    bind gate (fun _ => call_handler w (process_command_depth w (String.length message1))
                          (handler_of cmd) author message1) s =
    bind gate (fun _ => call_handler w (process_command_depth w (String.length message2))
                          (handler_of cmd) author message2) s).
  { intros gate. apply bind_ext. intros _ s'.
    destruct (handler_of cmd); cbn [call_handler]; try reflexivity.
    - unfold process_transfer, parse_transfer_command. now rewrite E1, Heq.
    - contradiction Hkey. cbn. now rewrite (Hk eq_refl).
    - contradiction Hproxy. cbn. now rewrite (Hp eq_refl).
    - unfold process_authorization, parse_authorization. now rewrite E1, Heq.
    - unfold process_admin_transfer, parse_admin_transfer_command.
      now rewrite E1, Heq.
    - unfold process_print_money, parse_print_money. now rewrite E1, Heq.
    - unfold process_admin_create_recurring_transfer,
        parse_admin_create_recurring_transfer. now rewrite E1, Heq.
    - unfold process_admin_open_account. now rewrite E1, Heq. }
  now rewrite E.
Qed.

Lemma only_the_tokens_matter_witness :
  process_command ref_world "bob" ("  transfer" ++ nl ++ "5   alice ") ref_ledger =
  process_command ref_world "bob" "transfer 5 alice" ref_ledger.
Proof.
  apply only_the_tokens_matter; [reflexivity| |]; cbn; discriminate.
Defined.
